(** * PyOP2 API sketch (pyop2/op2.py): a shallow embedding and its properties

    The module declares sets, maps, data carriers and access descriptors.
    Its objects are ordinary Python instances: a class tag and an attribute
    dictionary, living in a store and referred to by identity.  The
    embedding keeps that shape, because the binding operations are written
    with [copy] followed by attribute assignment, and because the
    compatibility checks compare objects by identity and read attributes by
    name.  Values, exceptions and their messages are those of Python 3. *)

From Stdlib Require Import ZArith String Ascii List Lia.
From stdpp Require Import base gmap strings list pretty.

Local Open Scope string_scope.
Local Open Scope list_scope.
Local Open Scope Z_scope.

(** ** The fragment of Python the module uses *)

(** Object identities.  The store is a list of objects and a location is an
    index into it; nothing is ever deallocated. *)
Definition loc := nat.

(** The classes of op2.py. *)
Inductive cls :=
| CAccess | CIterationSpace | CKernel | CSet | CDataCarrier
| CDat | CMat | CConst | CGlobal | CMap | CParLoop.

(** Python values.  Integers are unbounded; [True] and [False] are integers
    too, as in Python.  Lists and tuples are kept apart because [as_tuple]
    returns one or the other. *)
#[warnings="-register-all"]
Inductive val :=
| VNone
| VBool (b : bool)
| VInt (z : Z)
| VStr (s : string)
| VTuple (l : list val)
| VList (l : list val)
| VRef (l : loc).
Arguments VRef l%_nat.

(** The types passed to [isinstance]. *)
Inductive pytype := TInt | TStr | TClass (c : cls).

Record obj := Obj { o_cls : cls; o_dict : gmap string val }.

Abbreviation heap := (list obj).

Inductive exn :=
| AssertionError (msg : string)
| AttributeError (msg : string)
| TypeError (msg : string)
| IndexError (msg : string)
| RecursionError.

Inductive res (A : Type) :=
| Ok (a : A)
| Raise (e : exn).
Arguments Ok {A} a.
Arguments Raise {A} e.

(** Computations that only read the store. *)
Definition rbind {A B} (r : res A) (k : A → res B) : res B :=
  match r with Ok a => k a | Raise e => Raise e end.

(** Computations that may allocate and assign: the store is threaded, and
    survives an exception. *)
Definition M (A : Type) := heap → res A * heap.

Definition ret {A} (a : A) : M A := λ σ, (Ok a, σ).
Definition raise {A} (e : exn) : M A := λ σ, (Raise e, σ).
Definition bind {A B} (m : M A) (k : A → M B) : M B :=
  λ σ, match m σ with
       | (Ok a, σ') => k a σ'
       | (Raise e, σ') => (Raise e, σ')
       end.
Definition reading {A} (f : heap → res A) : M A := λ σ, (f σ, σ).

Declare Scope py_scope.
Delimit Scope py_scope with py.
Notation "x <- m ;; k" := (bind m (λ x, k))
  (at level 62, m at next level, right associativity) : py_scope.
Notation "x <~ r ;; k" := (rbind r (λ x, k))
  (at level 62, r at next level, right associativity) : py_scope.
Local Open Scope py_scope.

Definition cls_name (c : cls) : string :=
  match c with
  | CAccess => "Access" | CIterationSpace => "IterationSpace"
  | CKernel => "Kernel" | CSet => "Set" | CDataCarrier => "DataCarrier"
  | CDat => "Dat" | CMat => "Mat" | CConst => "Const"
  | CGlobal => "Global" | CMap => "Map" | CParLoop => "ParLoop"
  end.

Definition type_name (σ : heap) (v : val) : string :=
  match v with
  | VNone => "NoneType" | VBool _ => "bool" | VInt _ => "int"
  | VStr _ => "str" | VTuple _ => "tuple" | VList _ => "list"
  | VRef l => match σ !! l with
              | Some o => cls_name (o_cls o)
              | None => "object"
              end
  end.

(** The module is [pyop2.op2]; a class of it prints under that path. *)
Definition module_name : string := "pyop2.op2".

Definition pytype_name (t : pytype) : string :=
  match t with
  | TInt => "int"
  | TStr => "str"
  | TClass c => module_name +:+ "." +:+ cls_name c
  end.

(** [bool] is a subclass of [int]; the four carriers derive from
    [DataCarrier]; every other class derives from [object] only. *)
Definition subclass (c d : cls) : bool :=
  match c, d with
  | CAccess, CAccess | CIterationSpace, CIterationSpace | CKernel, CKernel
  | CSet, CSet | CDataCarrier, CDataCarrier | CDat, CDat | CMat, CMat
  | CConst, CConst | CGlobal, CGlobal | CMap, CMap | CParLoop, CParLoop => true
  | (CDat | CMat | CConst | CGlobal), CDataCarrier => true
  | _, _ => false
  end.

Definition isinstance (σ : heap) (v : val) (t : pytype) : bool :=
  match t, v with
  | TInt, (VInt _ | VBool _) => true
  | TStr, VStr _ => true
  | TClass c, VRef l => match σ !! l with
                        | Some o => subclass (o_cls o) c
                        | None => false
                        end
  | _, _ => false
  end.

(** Truth value of an object in a condition.  No class of the module
    defines [__len__] or [__bool__], so every instance is true. *)
Definition truthy (v : val) : bool :=
  match v with
  | VNone => false
  | VBool b => b
  | VInt z => negb (z =? 0)
  | VStr s => negb (String.eqb s "")
  | VTuple l | VList l => match l with [] => false | _ => true end
  | VRef _ => true
  end.

Definition num_of (v : val) : option Z :=
  match v with
  | VInt z => Some z
  | VBool b => Some (if b then 1 else 0)
  | _ => None
  end.

(** [a == b].  No class of the module defines [__eq__]: two instances are
    equal when they are the same object. *)
Fixpoint py_eq (a b : val) : bool :=
  match a, b with
  | VNone, VNone => true
  | VBool x, VBool y => Bool.eqb x y
  | VBool x, VInt y => (if x then 1 else 0) =? y
  | VInt x, VBool y => x =? (if y then 1 else 0)
  | VInt x, VInt y => x =? y
  | VStr s, VStr t => String.eqb s t
  | VTuple l, VTuple m | VList l, VList m =>
      (fix go (l m : list val) : bool :=
         match l, m with
         | [], [] => true
         | x :: l', y :: m' => py_eq x y && go l' m'
         | _, _ => false
         end) l m
  | VRef l, VRef m => Nat.eqb l m
  | _, _ => false
  end.

(** [a < b] and [a <= b] where one side is a number, as in
    [0 <= index < self._dim]: a number is not ordered against a value of
    another type, and no class of the module defines an ordering. *)
Definition not_ordered (op : string) (σ : heap) (a b : val) : exn :=
  TypeError ("'" +:+ op +:+ "' not supported between instances of '"
             +:+ type_name σ a +:+ "' and '" +:+ type_name σ b +:+ "'").

Definition py_lt (σ : heap) (a b : val) : res bool :=
  match num_of a, num_of b with
  | Some x, Some y => Ok (x <? y)
  | _, _ => Raise (not_ordered "<" σ a b)
  end.

Definition py_le (σ : heap) (a b : val) : res bool :=
  match num_of a, num_of b with
  | Some x, Some y => Ok (x <=? y)
  | _, _ => Raise (not_ordered "<=" σ a b)
  end.

(** The items produced by iterating over a value; [None] when the value is
    not iterable ([tuple(v)] and [zip(v, ...)] raise [TypeError]). *)
Definition py_iter (v : val) : option (list val) :=
  match v with
  | VTuple l | VList l => Some l
  | VStr s => Some ((λ c, VStr (String c "")) <$> list_ascii_of_string s)
  | _ => None
  end.

Definition not_iterable (σ : heap) (v : val) : exn :=
  TypeError ("'" +:+ type_name σ v +:+ "' object is not iterable").

(** [x in c]: membership in a list or tuple [c], and the substring test when
    [c] is a string. *)
Fixpoint substring_of (x c : string) : bool :=
  String.prefix x c
  || match c with
     | "" => false
     | String _ c' => substring_of x c'
     end.

Definition py_in (σ : heap) (x c : val) : res bool :=
  match c with
  | VTuple l | VList l => Ok (existsb (py_eq x) l)
  | VStr s =>
      match x with
      | VStr t => Ok (substring_of t s)
      | _ => Raise (TypeError
                      ("'in <string>' requires string as left operand, not "
                       +:+ type_name σ x))
      end
  | _ => Raise (TypeError ("argument of type '" +:+ type_name σ c
                           +:+ "' is not iterable"))
  end.

(** [zip]: stops at the shorter sequence. *)
Fixpoint zip {A B} (l : list A) (m : list B) : list (A * B) :=
  match l, m with
  | x :: l', y :: m' => (x, y) :: zip l' m'
  | _, _ => []
  end.

(** *** Attributes, allocation and [copy] *)

(** The module-level access descriptors.  Importing the module runs
    [READ = Access("READ")] and its three siblings first, so these are the
    first four objects of the store (see [import_op2] below). *)
Definition READ : val := VRef 0%nat.
Definition WRITE : val := VRef 1%nat.
Definition RW : val := VRef 2%nat.
Definition INC : val := VRef 3%nat.

(** Class attributes: the [_modes] lists. *)
Definition class_attr (c : cls) (name : string) : option val :=
  if String.eqb name "_modes" then
    match c with
    | CAccess => Some (VList [VStr "READ"; VStr "WRITE"; VStr "RW"; VStr "INC"])
    | CDat | CMat => Some (VList [READ; WRITE; RW; INC])
    | CConst => Some (VList [READ])
    | CGlobal => Some (VList [READ; INC])
    | _ => None
    end
  else None.

Definition no_attribute (σ : heap) (v : val) (name : string) : exn :=
  AttributeError ("'" +:+ type_name σ v +:+ "' object has no attribute '"
                  +:+ name +:+ "'").

(** [v.name]: the instance dictionary first, then the class. *)
Definition getattr (σ : heap) (v : val) (name : string) : res val :=
  match v with
  | VRef l =>
      match σ !! l with
      | Some o =>
          match o_dict o !! name with
          | Some x => Ok x
          | None =>
              match class_attr (o_cls o) name with
              | Some x => Ok x
              | None => Raise (no_attribute σ v name)
              end
          end
      | None => Raise (no_attribute σ v name)
      end
  | _ => Raise (no_attribute σ v name)
  end.

(** [v.name = x] *)
Definition setattr (v : val) (name : string) (x : val) : M unit :=
  λ σ, match v with
       | VRef l =>
           match σ !! l with
           | Some o => (Ok (), <[l := Obj (o_cls o) (<[name := x]> (o_dict o))]> σ)
           | None => (Raise (no_attribute σ v name), σ)
           end
       | _ => (Raise (no_attribute σ v name), σ)
       end.

(** A new, attribute-less instance of a class. *)
Definition new (c : cls) : M val :=
  λ σ, (Ok (VRef (length σ)), (σ ++ [Obj c ∅])%list).

(** [C(args)]: allocate, then run [__init__] on the new instance. *)
Definition construct (c : cls) (init : val → M unit) : M val :=
  self <- new c ;; _ <- init self ;; ret self.

(** [copy(v)]: a shallow copy.  An instance is duplicated under a new
    identity with the same class and the same attribute values; immutable
    values are returned as they are. *)
Definition copy (v : val) : M val :=
  λ σ, match v with
       | VRef l =>
           match σ !! l with
           | Some o => (Ok (VRef (length σ)), (σ ++ [o])%list)
           | None => (Raise (TypeError "copy of an unknown object"), σ)
           end
       | _ => (Ok v, σ)
       end.

(** [assert c, msg]: the message is only evaluated when [c] is false. *)
Definition py_assert (c : bool) (msg : heap → res string) : M unit :=
  λ σ, if c then (Ok (), σ)
       else match msg σ with
            | Ok m => (Raise (AssertionError m), σ)
            | Raise e => (Raise e, σ)
            end.

(** *** String formatting *)

Definition join (sep : string) (l : list string) : string :=
  match l with
  | [] => ""
  | s :: l' => fold_left (λ acc t, acc +:+ sep +:+ t) l' s
  end.

Fixpoint rmapM {A B} (f : A → res B) (l : list A) : res (list B) :=
  match l with
  | [] => Ok []
  | x :: l' => y <~ f x ;; ys <~ rmapM f l' ;; Ok (y :: ys)
  end.

Section Format.
(** The builtins [str] and [repr], as available to the formatting
    operator and to the [__str__] and [__repr__] methods below. *)
Variables str repr : heap → val → res string.

(** [fmt % args] for the conversions the module uses: [%s], [%r], [%d]. *)
Fixpoint format (fmt : string) (args : list val) (σ : heap) : res string :=
  match fmt with
  | "" =>
      match args with
      | [] => Ok ""
      | _ => Raise (TypeError "not all arguments converted during string formatting")
      end
  | String "%"%char (String c rest) =>
      match args with
      | [] => Raise (TypeError "not enough arguments for format string")
      | a :: args' =>
          s <~ (if Ascii.eqb c "s"%char then str σ a
                else if Ascii.eqb c "r"%char then repr σ a
                else if Ascii.eqb c "d"%char then
                  match num_of a with
                  | Some z => Ok (pretty z)
                  | None => Raise (TypeError
                              ("%d format: a real number is required, not "
                               +:+ type_name σ a))
                  end
                else Raise (TypeError "unsupported format character")) ;;
          t <~ format rest args' σ ;;
          Ok (s +:+ t)
      end
  | String c rest => t <~ format rest args σ ;; Ok (String c t)
  end.

(** [fmt % v] with a single right operand: a tuple supplies all the
    arguments, anything else is the only argument. *)
Definition format1 (fmt : string) (v : val) (σ : heap) : res string :=
  match v with
  | VTuple l => format fmt l σ
  | _ => format fmt [v] σ
  end.
End Format.

Definition is_none (v : val) : bool :=
  match v with VNone => true | _ => false end.

(** [v[i]] for a non-negative literal index.  Tuples, lists and strings are
    indexed; no class of the module defines [__getitem__]. *)
Definition sequence_name (v : val) : string :=
  match v with VStr _ => "string" | VList _ => "list" | _ => "tuple" end.

Definition getitem (σ : heap) (v : val) (i : nat) : res val :=
  match py_iter v with
  | Some l =>
      match l !! i with
      | Some x => Ok x
      | None => Raise (IndexError (sequence_name v +:+ " index out of range"))
      end
  | None => Raise (TypeError ("'" +:+ type_name σ v
                              +:+ "' object is not subscriptable"))
  end.

(** [self.a and self.b], used as a condition. *)
Definition attr_and (σ : heap) (self : val) (a b : string) : res bool :=
  x <~ getattr σ self a ;;
  if truthy x then y <~ getattr σ self b ;; Ok (truthy y) else Ok false.

Definition dquote : string := String (ascii_of_nat 34) "".

(** ** The renderings of op2.py: [__str__] and [__repr__] *)

Section Renderings.
Variables str repr : heap → val → res string.

Definition Access_str (σ : heap) (self : val) : res string :=
  mode <~ getattr σ self "_mode" ;;
  format1 str repr "OP2 Access: %s" mode σ.

Definition Access_repr (σ : heap) (self : val) : res string :=
  mode <~ getattr σ self "_mode" ;;
  format1 str repr "Access('%s')" mode σ.

Definition IterationSpace_str (σ : heap) (self : val) : res string :=
  set <~ getattr σ self "_set" ;;
  dims <~ getattr σ self "_dims" ;;
  format str repr "OP2 Iteration Space: %s and extra dimensions %s"
    [set; dims] σ.

Definition IterationSpace_repr (σ : heap) (self : val) : res string :=
  set <~ getattr σ self "_set" ;;
  dims <~ getattr σ self "_dims" ;;
  format str repr "IterationSpace(%r, %r)" [set; dims] σ.

Definition Kernel_str (σ : heap) (self : val) : res string :=
  name <~ getattr σ self "_name" ;;
  format1 str repr "OP2 Kernel: %s" name σ.

Definition Kernel_repr (σ : heap) (self : val) : res string :=
  name <~ getattr σ self "_name" ;;
  code <~ getattr σ self "_code" ;;
  format str repr
    ("Kernel(" +:+ dquote +:+ "%s" +:+ dquote +:+ ", "
     +:+ dquote +:+ dquote +:+ dquote +:+ "%s"
     +:+ dquote +:+ dquote +:+ dquote +:+ ")")
    [name; code] σ.

Definition Set_str (σ : heap) (self : val) : res string :=
  name <~ getattr σ self "_name" ;;
  size <~ getattr σ self "_size" ;;
  format str repr "OP2 Set: %s with size %s" [name; size] σ.

Definition Set_repr (σ : heap) (self : val) : res string :=
  size <~ getattr σ self "_size" ;;
  name <~ getattr σ self "_name" ;;
  format str repr "Set(%s, '%s')" [size; name] σ.

Definition Dat_str (σ : heap) (self : val) : res string :=
  bound <~ attr_and σ self "_map" "_access" ;;
  call <~ (if bound then
             map <~ getattr σ self "_map" ;;
             access <~ getattr σ self "_access" ;;
             format str repr " associated with (%s) in mode %s"
               [map; access] σ
           else Ok "") ;;
  name <~ getattr σ self "_name" ;;
  set <~ getattr σ self "_set" ;;
  dim <~ getattr σ self "_dim" ;;
  datatype <~ getattr σ self "_datatype" ;;
  format str repr "OP2 Dat: %s on (%s) with dim %s and datatype %s%s"
    [name; set; dim; datatype; VStr call] σ.

Definition Dat_repr (σ : heap) (self : val) : res string :=
  bound <~ attr_and σ self "_map" "_access" ;;
  call <~ (if bound then
             map <~ getattr σ self "_map" ;;
             access <~ getattr σ self "_access" ;;
             format str repr "(%r, %r)" [map; access] σ
           else Ok "") ;;
  set <~ getattr σ self "_set" ;;
  dim <~ getattr σ self "_dim" ;;
  datatype <~ getattr σ self "_datatype" ;;
  name <~ getattr σ self "_name" ;;
  format str repr "Dat(%r, %s, '%s', None, '%s')%s"
    [set; dim; datatype; name; VStr call] σ.

Definition Mat_str (σ : heap) (self : val) : res string :=
  bound <~ attr_and σ self "_maps" "_access" ;;
  call <~ (if bound then
             maps <~ getattr σ self "_maps" ;;
             map0 <~ getitem σ maps 0 ;;
             maps' <~ getattr σ self "_maps" ;;
             map1 <~ getitem σ maps' 1 ;;
             access <~ getattr σ self "_access" ;;
             format str repr " associated with (%s, %s) in mode %s"
               [map0; map1; access] σ
           else Ok "") ;;
  name <~ getattr σ self "_name" ;;
  sets <~ getattr σ self "_sets" ;;
  set0 <~ getitem σ sets 0 ;;
  sets' <~ getattr σ self "_sets" ;;
  set1 <~ getitem σ sets' 1 ;;
  dim <~ getattr σ self "_dim" ;;
  datatype <~ getattr σ self "_datatype" ;;
  format str repr
    "OP2 Mat: %s, row set (%s), col set (%s), dimension %s, datatype %s%s"
    [name; set0; set1; dim; datatype; VStr call] σ.

Definition Mat_repr (σ : heap) (self : val) : res string :=
  bound <~ attr_and σ self "_maps" "_access" ;;
  call <~ (if bound then
             maps <~ getattr σ self "_maps" ;;
             access <~ getattr σ self "_access" ;;
             format str repr "(%r, %r)" [maps; access] σ
           else Ok "") ;;
  sets <~ getattr σ self "_sets" ;;
  dim <~ getattr σ self "_dim" ;;
  datatype <~ getattr σ self "_datatype" ;;
  name <~ getattr σ self "_name" ;;
  format str repr "Mat(%r, %s, '%s', '%s')%s"
    [sets; dim; datatype; name; VStr call] σ.

Definition Const_str (σ : heap) (self : val) : res string :=
  name <~ getattr σ self "_name" ;;
  dim <~ getattr σ self "_dim" ;;
  datatype <~ getattr σ self "_datatype" ;;
  value <~ getattr σ self "_value" ;;
  format str repr "OP2 Const: %s of dim %s and type %s, value %s"
    [name; dim; datatype; value] σ.

Definition Const_repr (σ : heap) (self : val) : res string :=
  dim <~ getattr σ self "_dim" ;;
  datatype <~ getattr σ self "_datatype" ;;
  value <~ getattr σ self "_value" ;;
  name <~ getattr σ self "_name" ;;
  format str repr "Const(%s, '%s', %s, '%s')"
    [dim; datatype; value; name] σ.

Definition Global_str (σ : heap) (self : val) : res string :=
  access <~ getattr σ self "_access" ;;
  call <~ (if truthy access then
             access' <~ getattr σ self "_access" ;;
             format1 str repr " in mode %s" access' σ
           else Ok "") ;;
  name <~ getattr σ self "_name" ;;
  val <~ getattr σ self "_val" ;;
  format str repr "OP2 Global Argument: %s with value %s%s"
    [name; val; VStr call] σ.

Definition Global_repr (σ : heap) (self : val) : res string :=
  access <~ getattr σ self "_access" ;;
  call <~ (if truthy access then
             access' <~ getattr σ self "_access" ;;
             format1 str repr "(%r)" access' σ
           else Ok "") ;;
  name <~ getattr σ self "_name" ;;
  val <~ getattr σ self "_val" ;;
  format str repr "Global('%s', %s)%s" [name; val; VStr call] σ.

Definition Map_str (σ : heap) (self : val) : res string :=
  index <~ getattr σ self "_index" ;;
  indexed <~ (if truthy index then
                index' <~ getattr σ self "_index" ;;
                format1 str repr " and component %s" index' σ
              else Ok "") ;;
  name <~ getattr σ self "_name" ;;
  from <~ getattr σ self "_from" ;;
  to <~ getattr σ self "_to" ;;
  dim <~ getattr σ self "_dim" ;;
  format str repr "OP2 Map: %s from (%s) to (%s) with dim %s%s"
    [name; from; to; dim; VStr indexed] σ.

Definition Map_repr (σ : heap) (self : val) : res string :=
  index <~ getattr σ self "_index" ;;
  indexed <~ (if truthy index then
                index' <~ getattr σ self "_index" ;;
                format1 str repr "(%s)" index' σ
              else Ok "") ;;
  from <~ getattr σ self "_from" ;;
  to <~ getattr σ self "_to" ;;
  dim <~ getattr σ self "_dim" ;;
  name <~ getattr σ self "_name" ;;
  format str repr "Map(%r, %r, %s, None, '%s')%s"
    [from; to; dim; name; VStr indexed] σ.

(** [DataCarrier] and [ParLoop] define neither method: the rendering
    inherited from [object] names the class; the address that Python shows
    after it, [at 0x...], differs from run to run and is left out. *)
Definition object_repr (c : cls) : string :=
  "<" +:+ module_name +:+ "." +:+ cls_name c +:+ " object>".

Definition instance_str (σ : heap) (c : cls) (self : val) : res string :=
  match c with
  | CAccess => Access_str σ self
  | CIterationSpace => IterationSpace_str σ self
  | CKernel => Kernel_str σ self
  | CSet => Set_str σ self
  | CDat => Dat_str σ self
  | CMat => Mat_str σ self
  | CConst => Const_str σ self
  | CGlobal => Global_str σ self
  | CMap => Map_str σ self
  | CDataCarrier | CParLoop => Ok (object_repr c)
  end.

Definition instance_repr (σ : heap) (c : cls) (self : val) : res string :=
  match c with
  | CAccess => Access_repr σ self
  | CIterationSpace => IterationSpace_repr σ self
  | CKernel => Kernel_repr σ self
  | CSet => Set_repr σ self
  | CDat => Dat_repr σ self
  | CMat => Mat_repr σ self
  | CConst => Const_repr σ self
  | CGlobal => Global_repr σ self
  | CMap => Map_repr σ self
  | CDataCarrier | CParLoop => Ok (object_repr c)
  end.
End Renderings.

(** [repr] of a string, its characters read as code points below 256: in
    single quotes, or in double quotes when the text has a single quote and
    no double quote; the quote in use and the backslash are escaped, tab,
    newline and carriage return are written [\t], [\n], [\r], and any other
    character that does not print is written [\xhh]. *)
Definition backslash : ascii := ascii_of_nat 92.
Definition squote : ascii := ascii_of_nat 39.

Definition hex_digit (n : N) : ascii :=
  nth (N.to_nat n) (list_ascii_of_string "0123456789abcdef") "0"%char.

Definition printable (c : ascii) : bool :=
  let n := N_of_ascii c in
  ((32 <=? n) && (n <? 127) || (161 <=? n) && negb (n =? 173))%N.

Definition repr_char (quote c : ascii) : string :=
  if Ascii.eqb c quote || Ascii.eqb c backslash
  then String backslash (String c "")
  else if Ascii.eqb c (ascii_of_nat 9) then String backslash "t"
  else if Ascii.eqb c (ascii_of_nat 10) then String backslash "n"
  else if Ascii.eqb c (ascii_of_nat 13) then String backslash "r"
  else if printable c then String c ""
  else let n := N_of_ascii c in
       String backslash
         (String "x" (String (hex_digit (n / 16))
                        (String (hex_digit (n mod 16)) ""))).

Fixpoint repr_chars (quote : ascii) (s : string) : string :=
  match s with
  | "" => ""
  | String c s' => repr_char quote c +:+ repr_chars quote s'
  end.

Definition has_char (c : ascii) (s : string) : bool :=
  existsb (Ascii.eqb c) (list_ascii_of_string s).

Definition str_repr (s : string) : string :=
  let quote := if has_char squote s && negb (has_char (ascii_of_nat 34) s)
               then ascii_of_nat 34 else squote in
  String quote (repr_chars quote s +:+ String quote "").

(** The builtins [str] and [repr].  The fuel is the depth of nested
    renderings; running out of it is Python's recursion limit, reached for
    instance by an object that refers to itself. *)
Fixpoint py_str (n : nat) (σ : heap) (v : val) {struct n} : res string :=
  match n with
  | O => Raise RecursionError
  | S n' =>
      match v with
      | VStr s => Ok s
      | VRef l =>
          match σ !! l with
          | Some o => instance_str (py_str n') (py_repr n') σ (o_cls o) v
          | None => Raise (TypeError "unknown object")
          end
      | _ => py_repr n' σ v
      end
  end
with py_repr (n : nat) (σ : heap) (v : val) {struct n} : res string :=
  match n with
  | O => Raise RecursionError
  | S n' =>
      match v with
      | VNone => Ok "None"
      | VBool b => Ok (if b then "True" else "False")
      | VInt z => Ok (pretty z)
      | VStr s => Ok (str_repr s)
      | VTuple l =>
          items <~ rmapM (py_repr n' σ) l ;;
          Ok (match items with
              | [x] => "(" +:+ x +:+ ",)"
              | _ => "(" +:+ join ", " items +:+ ")"
              end)
      | VList l =>
          items <~ rmapM (py_repr n' σ) l ;;
          Ok ("[" +:+ join ", " items +:+ "]")
      | VRef l =>
          match σ !! l with
          | Some o => instance_repr (py_str n') (py_repr n') σ (o_cls o) v
          | None => Raise (TypeError "unknown object")
          end
      end
  end.

Definition recursion_limit : nat := 1000.

Definition str (σ : heap) (v : val) : res string := py_str recursion_limit σ v.
Definition repr (σ : heap) (v : val) : res string := py_repr recursion_limit σ v.

(** [fmt % args] and [fmt % v] outside the rendering methods. *)
Definition fmt (f : string) (args : list val) (σ : heap) : res string :=
  format str repr f args σ.
Definition fmt1 (f : string) (v : val) (σ : heap) : res string :=
  format1 str repr f v σ.

(** ** op2.py *)

Definition attr (v : val) (name : string) : M val :=
  reading (λ σ, getattr σ v name).

Definition pure {A} (r : res A) : M A := reading (λ _, r).

(** [str(T)] for a type: [<class 'int'>], [<class 'pyop2.op2.Set'>]. *)
Definition type_str (t : pytype) : string :=
  "<class '" +:+ pytype_name t +:+ "'>".

(** [length or 1] *)
Definition length_or_1 (length : option Z) : Z :=
  match length with
  | Some n => if n =? 0 then 1 else n
  | None => 1
  end.

(** The first half of [as_tuple]: the sequence [t] built from [item]. *)
Definition coerce (item : val) (length : option Z) : val :=
  if is_none item then VList []
  else match py_iter item with
       | Some l => VTuple l
       | None => VTuple (replicate (Z.to_nat (length_or_1 length)) item)
       end.

Definition items_of (t : val) : list val := default [] (py_iter t).

(** [len(t)] *)
Definition len (t : val) : Z := Z.of_nat (List.length (items_of t)).

(** [as_tuple(item, type=None, length=None)].  An absent [type] is [None];
    [length] is [None] or an integer. *)
Definition as_tuple (item : val) (type : option pytype) (length : option Z)
  : M val :=
  let t := coerce item length in
  _ <- match length with
       | Some n =>
           if n =? 0 then ret ()
           else py_assert (len t =? n)
                  (fmt1 "Tuple needs to be of length %d" (VInt n))
       | None => ret ()
       end ;;
  _ <- match type with
       | Some ty =>
           λ σ, py_assert (forallb (λ i, isinstance σ i ty) (items_of t))
                  (λ _, Ok ("Items need to be of " +:+ type_str ty)) σ
       | None => ret ()
       end ;;
  ret t.

(** *** Kernel API *)

Definition Access_init (self mode : val) : M unit :=
  modes <- attr self "_modes" ;;
  ok <- reading (λ σ, py_in σ mode modes) ;;
  _ <- py_assert ok
         (λ σ, modes <~ getattr σ self "_modes" ;;
               fmt1 "Mode needs to be one of %s" modes σ) ;;
  setattr self "_mode" mode.

Definition new_Access (mode : val) : M val :=
  construct CAccess (λ self, Access_init self mode).

Definition IterationSpace_init (self set dims : val) : M unit :=
  _ <- (λ σ, py_assert (isinstance σ set (TClass CSet))
               (λ _, Ok "set needs to be of type Set") σ) ;;
  _ <- setattr self "_set" set ;;
  t <- as_tuple dims (Some TInt) None ;;
  setattr self "_dims" t.

Definition new_IterationSpace (set dims : val) : M val :=
  construct CIterationSpace (λ self, IterationSpace_init self set dims).

Definition Kernel_init (self name code : val) : M unit :=
  _ <- setattr self "_name" name ;;
  setattr self "_code" code.

Definition new_Kernel (name code : val) : M val :=
  construct CKernel (λ self, Kernel_init self name code).

(** [compile] and [handle] are declared without [self] and with the body
    [pass]: called on an instance they receive one argument too many. *)
Definition Kernel_compile (self : val) : M val :=
  raise (TypeError
           "Kernel.compile() takes 0 positional arguments but 1 was given").

Definition Kernel_handle (self : val) : M val :=
  raise (TypeError
           "Kernel.handle() takes 0 positional arguments but 1 was given").

(** *** Data API *)

Definition Set_init (self size name : val) : M unit :=
  _ <- (λ σ, py_assert (isinstance σ size TInt)
               (λ _, Ok "Size must be of type int") σ) ;;
  _ <- (λ σ, py_assert (isinstance σ name TStr)
               (λ _, Ok "Name must be of type str") σ) ;;
  _ <- setattr self "_size" size ;;
  setattr self "_name" name.

Definition new_Set (size name : val) : M val :=
  construct CSet (λ self, Set_init self size name).

Definition Set_size (self : val) : M val := attr self "_size".

(** The check shared by the three [__call__] methods:
    [assert access in self._modes, "Acess descriptor must be one of %s" % self._modes] *)
Definition assert_access (self access : val) : M unit :=
  modes <- attr self "_modes" ;;
  ok <- reading (λ σ, py_in σ access modes) ;;
  py_assert ok
    (λ σ, modes <~ getattr σ self "_modes" ;;
          fmt1 "Acess descriptor must be one of %s" modes σ).

Definition Dat_init (self set dim datatype data name : val) : M unit :=
  _ <- (λ σ, py_assert (isinstance σ set (TClass CSet))
               (λ _, Ok "set must be of type Set") σ) ;;
  _ <- (λ σ, py_assert (isinstance σ name TStr)
               (λ _, Ok "Name must be of type str") σ) ;;
  _ <- setattr self "_set" set ;;
  _ <- setattr self "_dim" dim ;;
  _ <- setattr self "_datatype" datatype ;;
  _ <- setattr self "_data" data ;;
  _ <- setattr self "_name" name ;;
  _ <- setattr self "_map" VNone ;;
  setattr self "_access" VNone.

Definition new_Dat (set dim datatype data name : val) : M val :=
  construct CDat (λ self, Dat_init self set dim datatype data name).

Definition Dat_call (self map access : val) : M val :=
  _ <- assert_access self access ;;
  map_set <- attr map "_set" ;;
  self_set <- attr self "_set" ;;
  _ <- py_assert (py_eq map_set self_set)
         (λ σ, map_name <~ getattr σ map "_name" ;;
               map_set <~ getattr σ map "_set" ;;
               map_set_name <~ getattr σ map_set "_name" ;;
               self_set <~ getattr σ self "_set" ;;
               self_set_name <~ getattr σ self_set "_name" ;;
               fmt "Invalid data set for map %s (is %s, should be %s)"
                 [map_name; map_set_name; self_set_name] σ) ;;
  arg <- copy self ;;
  _ <- setattr arg "_map" map ;;
  _ <- setattr arg "_access" access ;;
  ret arg.

Definition Mat_init (self sets dim datatype name : val) : M unit :=
  _ <- (λ σ, py_assert (isinstance σ name TStr)
               (λ _, Ok "Name must be of type str") σ) ;;
  t <- as_tuple sets (Some (TClass CSet)) (Some 2) ;;
  _ <- setattr self "_sets" t ;;
  _ <- setattr self "_dim" dim ;;
  _ <- setattr self "_datatype" datatype ;;
  _ <- setattr self "_name" name ;;
  _ <- setattr self "_maps" VNone ;;
  setattr self "_access" VNone.

Definition new_Mat (sets dim datatype name : val) : M val :=
  construct CMat (λ self, Mat_init self sets dim datatype name).

(** The loop of [Mat.__call__] over [zip(maps, self._sets)]. *)
Fixpoint Mat_call_loop (pairs : list (val * val)) : M unit :=
  match pairs with
  | [] => ret ()
  | (map, set) :: pairs' =>
      map_set <- attr map "_set" ;;
      _ <- py_assert (py_eq map_set set)
             (λ σ, map_name <~ getattr σ map "_name" ;;
                   map_set <~ getattr σ map "_set" ;;
                   map_set_name <~ getattr σ map_set "_name" ;;
                   set_name <~ getattr σ set "_name" ;;
                   fmt "Invalid set for map %s (is %s, should be %s)"
                     [map_name; map_set_name; set_name] σ) ;;
      Mat_call_loop pairs'
  end.

Definition Mat_call (self maps access : val) : M val :=
  _ <- assert_access self access ;;
  sets <- attr self "_sets" ;;
  pairs <- reading (λ σ, match py_iter maps, py_iter sets with
                         | Some ms, Some ss => Ok (zip ms ss)
                         | None, _ => Raise (not_iterable σ maps)
                         | _, None => Raise (not_iterable σ sets)
                         end) ;;
  _ <- Mat_call_loop pairs ;;
  arg <- copy self ;;
  _ <- setattr arg "_maps" maps ;;
  _ <- setattr arg "_access" access ;;
  ret arg.

Definition Const_init (self dim datatype value name : val) : M unit :=
  _ <- (λ σ, py_assert (isinstance σ name TStr)
               (λ _, Ok "Name must be of type str") σ) ;;
  _ <- setattr self "_dim" dim ;;
  _ <- setattr self "_datatype" datatype ;;
  _ <- setattr self "_value" value ;;
  _ <- setattr self "_name" name ;;
  setattr self "_access" READ.

Definition new_Const (dim datatype value name : val) : M val :=
  construct CConst (λ self, Const_init self dim datatype value name).

(** [Global(name, val=0)]: the default is supplied by the caller. *)
Definition Global_init (self name val_ : val) : M unit :=
  _ <- (λ σ, py_assert (isinstance σ name TStr)
               (λ _, Ok "Name must be of type str") σ) ;;
  _ <- setattr self "_val" val_ ;;
  _ <- setattr self "_name" name ;;
  setattr self "_access" VNone.

Definition new_Global (name val_ : val) : M val :=
  construct CGlobal (λ self, Global_init self name val_).

Definition Global_call (self access : val) : M val :=
  _ <- assert_access self access ;;
  arg <- copy self ;;
  _ <- setattr arg "_access" access ;;
  ret arg.

Definition Global_val (self : val) : M val := attr self "_val".

Definition Map_init (self frm to dim values name : val) : M unit :=
  _ <- (λ σ, py_assert (isinstance σ frm (TClass CSet))
               (λ _, Ok "From set must be of type Set") σ) ;;
  _ <- (λ σ, py_assert (isinstance σ to (TClass CSet))
               (λ _, Ok "To set must be of type Set") σ) ;;
  _ <- (λ σ, py_assert (isinstance σ name TStr)
               (λ _, Ok "Name must be of type str") σ) ;;
  _ <- setattr self "_from" frm ;;
  _ <- setattr self "_to" to ;;
  _ <- setattr self "_dim" dim ;;
  _ <- setattr self "_values" values ;;
  _ <- setattr self "_name" name ;;
  setattr self "_index" VNone.

Definition new_Map (frm to dim values name : val) : M val :=
  construct CMap (λ self, Map_init self frm to dim values name).

(** [self._dim - 1] *)
Definition minus_one (σ : heap) (v : val) : res val :=
  match num_of v with
  | Some z => Ok (VInt (z - 1))
  | None => Raise (TypeError ("unsupported operand type(s) for -: '"
                              +:+ type_name σ v +:+ "' and 'int'"))
  end.

Definition Map_indexed (self index : val) : M val :=
  current <- attr self "_index" ;;
  _ <- py_assert (is_none current) (λ _, Ok "Map has already been indexed") ;;
  lower <- reading (λ σ, py_le σ (VInt 0) index) ;;
  ok <- (if lower : bool then
           dim <- attr self "_dim" ;; reading (λ σ, py_lt σ index dim)
         else ret false) ;;
  _ <- py_assert ok
         (λ σ, dim <~ getattr σ self "_dim" ;;
               top <~ minus_one σ dim ;;
               fmt1 "Index must be in interval [0,%d]" top σ) ;;
  indexed <- copy self ;;
  _ <- setattr indexed "_index" index ;;
  ret indexed.

Definition Map_call (self index : val) : M val :=
  _ <- (λ σ, py_assert (isinstance σ index TInt)
               (λ _, Ok "Only integer indices are allowed") σ) ;;
  Map_indexed self index.

(** *** Parallel loop API *)

Definition ParLoop_init (self kernel it_space : val) (args : list val)
  : M unit :=
  _ <- setattr self "_kernel" kernel ;;
  _ <- setattr self "_it_space" it_space ;;
  setattr self "_args" (VTuple args).

Definition new_ParLoop (kernel it_space : val) (args : list val) : M val :=
  construct CParLoop (λ self, ParLoop_init self kernel it_space args).

(** Importing the module: the four access descriptors are created, in
    this order, before any class that lists them. *)
Definition import_op2 : M unit :=
  _ <- new_Access (VStr "READ") ;;
  _ <- new_Access (VStr "WRITE") ;;
  _ <- new_Access (VStr "RW") ;;
  _ <- new_Access (VStr "INC") ;;
  ret ().

Definition op2_heap : heap := snd (import_op2 []).

(** ** Declared objects

    The attribute dictionaries the constructors build, and the predicates
    saying that a location of the store holds such an object. *)

Definition Access_fields (mode : val) : gmap string val :=
  <["_mode" := mode]> ∅.

Definition Set_fields (size name : val) : gmap string val :=
  <["_name" := name]> (<["_size" := size]> ∅).

Definition Dat_fields (set dim datatype data name map access : val)
  : gmap string val :=
  <["_access" := access]> (<["_map" := map]> (<["_name" := name]>
  (<["_data" := data]> (<["_datatype" := datatype]> (<["_dim" := dim]>
  (<["_set" := set]> ∅)))))).

Definition Mat_fields (sets dim datatype name maps access : val)
  : gmap string val :=
  <["_access" := access]> (<["_maps" := maps]> (<["_name" := name]>
  (<["_datatype" := datatype]> (<["_dim" := dim]> (<["_sets" := sets]> ∅))))).

Definition Global_fields (val_ name access : val) : gmap string val :=
  <["_access" := access]> (<["_name" := name]> (<["_val" := val_]> ∅)).

Definition Map_fields (frm to dim values name index : val)
  : gmap string val :=
  <["_index" := index]> (<["_name" := name]> (<["_values" := values]>
  (<["_dim" := dim]> (<["_to" := to]> (<["_from" := frm]> ∅))))).

Definition is_Set (σ : heap) (l : loc) (size name : val) : Prop :=
  σ !! l = Some (Obj CSet (Set_fields size name)).

(** A Dat declared on [set] and not bound yet. *)
Definition is_Dat (σ : heap) (l : loc) (set dim datatype data name : val)
  : Prop :=
  σ !! l = Some (Obj CDat (Dat_fields set dim datatype data name VNone VNone)).

(** A Mat declared on the pair [sets] and not bound yet. *)
Definition is_Mat (σ : heap) (l : loc) (sets dim datatype name : val) : Prop :=
  σ !! l = Some (Obj CMat (Mat_fields sets dim datatype name VNone VNone)).

Definition is_Global (σ : heap) (l : loc) (val_ name access : val) : Prop :=
  σ !! l = Some (Obj CGlobal (Global_fields val_ name access)).

Definition is_Map (σ : heap) (l : loc) (frm to dim values name index : val)
  : Prop :=
  σ !! l = Some (Obj CMap (Map_fields frm to dim values name index)).

(** The four canonical access descriptors. *)
Definition canonical (a : val) : Prop :=
  a = READ ∨ a = WRITE ∨ a = RW ∨ a = INC.

(** [m] occurs in [s]. *)
Definition occurs_in (m s : string) : Prop :=
  ∃ pre post, s = pre +:+ m +:+ post.

(** The store holds the module's own objects: it extends the store that
    importing op2 leaves. *)
Definition imported (σ : heap) : Prop := ∃ τ, σ = op2_heap ++ τ.

(** *** The binding and indexing operations, as one type of calls *)

Inductive binding :=
| Dat_binding (self map access : val)
| Mat_binding (self maps access : val)
| Global_binding (self access : val)
| Map_indexing (self index : val).

Definition receiver (b : binding) : val :=
  match b with
  | Dat_binding self _ _ | Mat_binding self _ _
  | Global_binding self _ | Map_indexing self _ => self
  end.

Definition run_binding (b : binding) : M val :=
  match b with
  | Dat_binding self map access => Dat_call self map access
  | Mat_binding self maps access => Mat_call self maps access
  | Global_binding self access => Global_call self access
  | Map_indexing self index => Map_indexed self index
  end.

(** A computation that leaves the store as it found it. *)
Definition preserving {A} (m : M A) : Prop :=
  ∀ σ r σ', m σ = (r, σ') → σ' = σ.

(** What [arg = copy(self)] followed by assignments to [arg] leaves behind:
    one more object, of the class of [self], returned, and the old store
    under it. *)
Definition fresh_copy (σ : heap) (self r : val) (σ' : heap) : Prop :=
  ∃ l o o', self = VRef l ∧ σ !! l = Some o
            ∧ r = VRef (length σ) ∧ σ' = σ ++ [o']
            ∧ o_cls o' = o_cls o.

(** The receiver [self] and every other object of [σ] are in [σ'] with the
    same class and the same fields, and [r] is an object of [σ'], an
    instance of the class of [self], that [σ] did not have. *)
Definition untouched (σ : heap) (self r : val) (σ' : heap) : Prop :=
  ∃ l o new o_new,
    self = VRef l ∧ σ !! l = Some o ∧ σ' !! l = Some o
    ∧ (∀ l' o', σ !! l' = Some o' → σ' !! l' = Some o')
    ∧ r = VRef new ∧ σ !! new = None ∧ new ≠ l
    ∧ σ' !! new = Some o_new ∧ o_cls o_new = o_cls o.

(** *** Statements that are put to the test on single inputs *)

(** The size of a constructed Set is a non-negative integer. *)
Definition Set_size_nonneg (σ : heap) (size name : val) : Prop :=
  ∀ r σ', new_Set size name σ = (Ok r, σ') →
          ∃ n, Set_size r σ' = (Ok (VInt n), σ') ∧ 0 ≤ n.

(** [as_tuple] fails when the sequence it built has not the length [n]
    that was asked for. *)
Definition as_tuple_length_enforced (σ : heap) (item : val)
    (type : option pytype) (n : Z) : Prop :=
  len (coerce item (Some n)) ≠ n →
  ∃ e σ', as_tuple item type (Some n) σ = (Raise e, σ').

(** What [map._set] raises when [map] is a Map. *)
Definition no_set_attribute : exn :=
  AttributeError "'Map' object has no attribute '_set'".

(** *** Example stores *)

(** [s = Set(10, "elems"); m = Map(s, s, 2, None, "m");
     d = Dat(s, 1, "double", None, "d")], after the import. *)
Definition scenario : M (val * val * val) :=
  _ <- import_op2 ;;
  s <- new_Set (VInt 10) (VStr "elems") ;;
  m <- new_Map s s (VInt 2) VNone (VStr "m") ;;
  d <- new_Dat s (VInt 1) (VStr "double") VNone (VStr "d") ;;
  ret (s, m, d).

Definition scenario_heap : heap := snd (scenario []).

(** [m.indexed(0)] and [m.indexed(1)] on the scenario's map, with the index
    and the rendering of each result. *)
Definition indexed_renderings : M (list (val * string)) :=
  smd <- scenario ;;
  let m := snd (fst smd) in
  m0 <- Map_indexed m (VInt 0) ;;
  m1 <- Map_indexed m (VInt 1) ;;
  i0 <- attr m0 "_index" ;;
  i1 <- attr m1 "_index" ;;
  r0 <- reading (λ σ, str σ m0) ;;
  r1 <- reading (λ σ, str σ m1) ;;
  ret [(i0, r0); (i1, r1)].

(** Two Sets (4, 5), a Map from the second to the first (6), a Dat on the
    first (7), a Mat on the first and itself (8), a Global (9), a Map of
    dimension 3 on the first Set (10) and its copy indexed at 2 (11). *)
Definition carriers_heap : heap :=
  op2_heap ++
  [Obj CSet (Set_fields (VInt 10) (VStr "elems"));
   Obj CSet (Set_fields (VInt 4) (VStr "nodes"));
   Obj CMap (Map_fields (VRef 5) (VRef 4) (VInt 2) VNone (VStr "m") VNone);
   Obj CDat (Dat_fields (VRef 4) (VInt 1) (VStr "double") VNone (VStr "d")
               VNone VNone);
   Obj CMat (Mat_fields (VTuple [VRef 4; VRef 4]) (VInt 1) (VStr "double")
               (VStr "mat") VNone VNone);
   Obj CGlobal (Global_fields (VInt 0) (VStr "g") VNone);
   Obj CMap (Map_fields (VRef 4) (VRef 4) (VInt 3) VNone (VStr "m3") VNone);
   Obj CMap (Map_fields (VRef 4) (VRef 4) (VInt 3) VNone (VStr "m3")
               (VInt 2))].

(** The dictionaries of the other classes. *)
Definition IterationSpace_fields (set dims : val) : gmap string val :=
  <["_dims" := dims]> (<["_set" := set]> ∅).

Definition Kernel_fields (name code : val) : gmap string val :=
  <["_code" := code]> (<["_name" := name]> ∅).

Definition Const_fields (dim datatype value name access : val)
  : gmap string val :=
  <["_access" := access]> (<["_name" := name]> (<["_value" := value]>
  (<["_datatype" := datatype]> (<["_dim" := dim]> ∅)))).

Definition ParLoop_fields (kernel it_space args : val) : gmap string val :=
  <["_args" := args]> (<["_it_space" := it_space]>
  (<["_kernel" := kernel]> ∅)).

(** *** Every call the module offers, as one type *)

Inductive call :=
| Call_as_tuple (item : val) (type : option pytype) (length : option Z)
| Call_Access (mode : val)
| Call_IterationSpace (set dims : val)
| Call_Kernel (name code : val)
| Call_Kernel_compile (self : val)
| Call_Kernel_handle (self : val)
| Call_Set (size name : val)
| Call_Set_size (self : val)
| Call_Dat (set dim datatype data name : val)
| Call_Mat (sets dim datatype name : val)
| Call_Const (dim datatype value name : val)
| Call_Global (name val_ : val)
| Call_Global_val (self : val)
| Call_Map (frm to dim values name : val)
| Call_Map_call (self index : val)
| Call_ParLoop (kernel it_space : val) (args : list val)
| Call_binding (b : binding).

Definition run_call (c : call) : M val :=
  match c with
  | Call_as_tuple item type length => as_tuple item type length
  | Call_Access mode => new_Access mode
  | Call_IterationSpace set dims => new_IterationSpace set dims
  | Call_Kernel name code => new_Kernel name code
  | Call_Kernel_compile self => Kernel_compile self
  | Call_Kernel_handle self => Kernel_handle self
  | Call_Set size name => new_Set size name
  | Call_Set_size self => Set_size self
  | Call_Dat set dim datatype data name => new_Dat set dim datatype data name
  | Call_Mat sets dim datatype name => new_Mat sets dim datatype name
  | Call_Const dim datatype value name => new_Const dim datatype value name
  | Call_Global name val_ => new_Global name val_
  | Call_Global_val self => Global_val self
  | Call_Map frm to dim values name => new_Map frm to dim values name
  | Call_Map_call self index => Map_call self index
  | Call_ParLoop kernel it_space args => new_ParLoop kernel it_space args
  | Call_binding b => run_binding b
  end.

(** The calls that construct an object. *)
Definition is_constructor (c : call) : bool :=
  match c with
  | Call_Access _ | Call_IterationSpace _ _ | Call_Kernel _ _ | Call_Set _ _
  | Call_Dat _ _ _ _ _ | Call_Mat _ _ _ _ | Call_Const _ _ _ _
  | Call_Global _ _ | Call_Map _ _ _ _ _ | Call_ParLoop _ _ _ => true
  | _ => false
  end.

(** A computation that only adds objects to the store. *)
Definition growing {A} (m : M A) : Prop :=
  ∀ σ r σ', m σ = (r, σ') → ∃ τ, σ' = σ ++ τ.

(** A computation that, run when the store is [σ] and one more object,
    leaves [σ] and one object: the shape of an [__init__] body, which
    assigns to the instance just allocated. *)
Definition initialising {A} (σ : heap) (m : M A) : Prop :=
  ∀ o r σ', m (σ ++ [o]) = (r, σ') → ∃ o', σ' = σ ++ [o'].

(** *** The texts of the renderings *)

Definition Set_text (name : string) (size : Z) : string :=
  "OP2 Set: " +:+ name +:+ " with size " +:+ pretty size.

Definition Set_repr_text (name : string) (size : Z) : string :=
  "Set(" +:+ pretty size +:+ ", '" +:+ name +:+ "')".

Definition Map_text (name from to : string) (dim : Z) : string :=
  "OP2 Map: " +:+ name +:+ " from (" +:+ from +:+ ") to (" +:+ to
  +:+ ") with dim " +:+ pretty dim.

Definition Global_text (name : string) (value : Z) : string :=
  "OP2 Global Argument: " +:+ name +:+ " with value " +:+ pretty value.

(** The check that [Mat.__call__] makes on one pair of [zip(maps, sets)]:
    the map has a [_set], and it is the set. *)
Definition set_matches (σ : heap) (pair : val * val) : Prop :=
  ∃ x, getattr σ (fst pair) "_set" = Ok x ∧ py_eq x (snd pair) = true.

Definition Kernel_text (name : string) : string := "OP2 Kernel: " +:+ name.

Definition Kernel_repr_text (name code : string) : string :=
  "Kernel(" +:+ dquote +:+ name +:+ dquote +:+ ", "
  +:+ dquote +:+ dquote +:+ dquote +:+ code
  +:+ dquote +:+ dquote +:+ dquote +:+ ")".

(** How a tuple of rendered items prints. *)
Definition tuple_text (items : list string) : string :=
  match items with
  | [x] => "(" +:+ x +:+ ",)"
  | _ => "(" +:+ join ", " items +:+ ")"
  end.

Definition IterationSpace_text (set dims : string) : string :=
  "OP2 Iteration Space: " +:+ set +:+ " and extra dimensions " +:+ dims.

Definition Dat_text (name set : string) (dim : Z) (datatype : string)
  : string :=
  "OP2 Dat: " +:+ name +:+ " on (" +:+ set +:+ ") with dim " +:+ pretty dim
  +:+ " and datatype " +:+ datatype.

(** ** Basic facts about the store and the monad *)

Lemma bind_ok {A B} (m : M A) (k : A → M B) σ a σ' :
  m σ = (Ok a, σ') → bind m k σ = k a σ'.
Proof. intros H. unfold bind. now rewrite H. Qed.

Lemma bind_raise {A B} (m : M A) (k : A → M B) σ e σ' :
  m σ = (Raise e, σ') → bind m k σ = (Raise e, σ').
Proof. intros H. unfold bind. now rewrite H. Qed.

Lemma lookup_new (σ : heap) (o : obj) : (σ ++ [o]) !! length σ = Some o.
Proof. apply list_lookup_middle. reflexivity. Qed.

Lemma insert_new (σ : heap) (o o' : obj) :
  <[length σ := o']> (σ ++ [o]) = σ ++ [o'].
Proof.
  rewrite <- (Nat.add_0_r (length σ)) at 1.
  now rewrite insert_app_r.
Qed.

Lemma setattr_new σ c d name x :
  setattr (VRef (length σ)) name x (σ ++ [Obj c d])
  = (Ok (), σ ++ [Obj c (<[name := x]> d)]).
Proof. unfold setattr. now rewrite lookup_new, insert_new. Qed.

Lemma getattr_field σ l c d name x :
  σ !! l = Some (Obj c d) → d !! name = Some x →
  getattr σ (VRef l) name = Ok x.
Proof. intros Hl Hd. unfold getattr. now rewrite Hl; simpl; rewrite Hd. Qed.

Lemma getattr_class σ l c d name x :
  σ !! l = Some (Obj c d) → d !! name = None → class_attr c name = Some x →
  getattr σ (VRef l) name = Ok x.
Proof.
  intros Hl Hd Hc. unfold getattr. now rewrite Hl; simpl; rewrite Hd, Hc.
Qed.

Lemma getattr_missing σ l c d name :
  σ !! l = Some (Obj c d) → d !! name = None → class_attr c name = None →
  getattr σ (VRef l) name
  = Raise (AttributeError ("'" +:+ cls_name c +:+ "' object has no attribute '"
                           +:+ name +:+ "'")).
Proof.
  intros Hl Hd Hc. unfold getattr, no_attribute, type_name.
  now rewrite Hl; simpl; rewrite Hd, Hc.
Qed.

Lemma isinstance_mono σ τ v t :
  isinstance σ v t = true → isinstance (σ ++ τ) v t = true.
Proof.
  destruct t, v; simpl; try done.
  destruct (σ !! l) eqn:E; [|done].
  now rewrite (lookup_app_l_Some _ _ _ _ E).
Qed.

Lemma isinstance_int_heap σ τ v : isinstance σ v TInt = isinstance τ v TInt.
Proof. now destruct v. Qed.

Lemma isinstance_str_heap σ τ v : isinstance σ v TStr = isinstance τ v TStr.
Proof. now destruct v. Qed.

Lemma py_in_canonical σ a :
  canonical a → py_in σ a (VList [READ; WRITE; RW; INC]) = Ok true.
Proof. intros [-> | [-> | [-> | ->]]]; reflexivity. Qed.

Lemma append_nil_r (s : string) : s +:+ "" = s.
Proof.
  induction s as [|c s IH]; [reflexivity|].
  change (String c (s +:+ "") = String c s). now rewrite IH.
Qed.

Lemma fmt1_length_message n σ :
  fmt1 "Tuple needs to be of length %d" (VInt n) σ
  = Ok ("Tuple needs to be of length " +:+ pretty n).
Proof. unfold fmt1, format1. simpl. now rewrite append_nil_r. Qed.

Lemma fmt1_interval_message n σ :
  fmt1 "Index must be in interval [0,%d]" (VInt n) σ
  = Ok ("Index must be in interval [0," +:+ pretty n +:+ "]").
Proof. reflexivity. Qed.

(** Unfolds the monad and reduces the steps whose outcome is known. *)
Ltac mrun :=
  repeat (progress (unfold construct, new, attr, pure, reading, bind, ret,
                      raise, py_assert;
                    cbv beta iota;
                    cbn [is_none rbind minus_one py_le py_lt num_of])).

(** ** The constructors build the declared objects *)

Lemma new_Access_ok σ m :
  In m ["READ"; "WRITE"; "RW"; "INC"] →
  new_Access (VStr m) σ
  = (Ok (VRef (length σ)), σ ++ [Obj CAccess (Access_fields (VStr m))]).
Proof.
  intros Hm.
  unfold new_Access, Access_init. mrun.
  erewrite getattr_class; [| apply lookup_new | reflexivity | reflexivity].
  assert (∀ τ, py_in τ (VStr m)
                 (VList [VStr "READ"; VStr "WRITE"; VStr "RW"; VStr "INC"])
               = Ok true) as ->.
  { intros τ. unfold py_in. f_equal.
    destruct Hm as [<- | [<- | [<- | [<- | []]]]]; reflexivity. }
  mrun. now rewrite setattr_new.
Qed.

Lemma new_Access_bad σ m :
  ¬ In m ["READ"; "WRITE"; "RW"; "INC"] →
  new_Access (VStr m) σ
  = (Raise (AssertionError
              "Mode needs to be one of ['READ', 'WRITE', 'RW', 'INC']"),
     σ ++ [Obj CAccess ∅]).
Proof.
  intros Hm.
  unfold new_Access, Access_init. mrun.
  erewrite getattr_class; [| apply lookup_new | reflexivity | reflexivity].
  assert (∀ τ, py_in τ (VStr m)
                 (VList [VStr "READ"; VStr "WRITE"; VStr "RW"; VStr "INC"])
               = Ok false) as ->.
  { intros τ. unfold py_in. f_equal. simpl.
    repeat match goal with
           | |- context [String.eqb m ?s] =>
               destruct (String.eqb_spec m s) as [->|_];
               [exfalso; apply Hm; simpl; tauto|]
           end.
    reflexivity. }
  mrun. reflexivity.
Qed.

(** The store after [import op2]: the four descriptors, at the locations
    that [READ], [WRITE], [RW] and [INC] name. *)
Lemma import_op2_heap :
  import_op2 [] = (Ok (), op2_heap) ∧
  op2_heap = [Obj CAccess (Access_fields (VStr "READ"));
              Obj CAccess (Access_fields (VStr "WRITE"));
              Obj CAccess (Access_fields (VStr "RW"));
              Obj CAccess (Access_fields (VStr "INC"))].
Proof. split; reflexivity. Qed.

Lemma new_Set_eq σ size name :
  new_Set size name σ
  = if isinstance σ size TInt then
      if isinstance σ name TStr then
        (Ok (VRef (length σ)), σ ++ [Obj CSet (Set_fields size name)])
      else (Raise (AssertionError "Name must be of type str"),
            σ ++ [Obj CSet ∅])
    else (Raise (AssertionError "Size must be of type int"),
          σ ++ [Obj CSet ∅]).
Proof.
  unfold new_Set, Set_init. mrun.
  rewrite (isinstance_int_heap (σ ++ _) σ).
  destruct (isinstance σ size TInt); [|done].
  mrun. rewrite (isinstance_str_heap (σ ++ _) σ).
  destruct (isinstance σ name TStr); [|done].
  mrun. rewrite !setattr_new. now mrun.
Qed.

Lemma new_Map_ok σ frm to dim values name :
  isinstance σ frm (TClass CSet) = true →
  isinstance σ to (TClass CSet) = true →
  isinstance σ name TStr = true →
  new_Map frm to dim values name σ
  = (Ok (VRef (length σ)),
     σ ++ [Obj CMap (Map_fields frm to dim values name VNone)]).
Proof.
  intros Hf Ht Hn.
  unfold new_Map, Map_init. mrun.
  rewrite (isinstance_mono _ _ _ _ Hf). mrun.
  rewrite (isinstance_mono _ _ _ _ Ht). mrun.
  rewrite (isinstance_mono _ _ _ _ Hn).
  mrun. rewrite !setattr_new. now mrun.
Qed.

Lemma new_Dat_ok σ set dim datatype data name :
  isinstance σ set (TClass CSet) = true →
  isinstance σ name TStr = true →
  new_Dat set dim datatype data name σ
  = (Ok (VRef (length σ)),
     σ ++ [Obj CDat (Dat_fields set dim datatype data name VNone VNone)]).
Proof.
  intros Hs Hn.
  unfold new_Dat, Dat_init. mrun.
  rewrite (isinstance_mono _ _ _ _ Hs). mrun.
  rewrite (isinstance_mono _ _ _ _ Hn).
  mrun. rewrite !setattr_new. now mrun.
Qed.

Lemma new_Global_ok σ name val_ :
  isinstance σ name TStr = true →
  new_Global name val_ σ
  = (Ok (VRef (length σ)),
     σ ++ [Obj CGlobal (Global_fields val_ name VNone)]).
Proof.
  intros Hn.
  unfold new_Global, Global_init. mrun.
  rewrite (isinstance_mono _ _ _ _ Hn).
  mrun. rewrite !setattr_new. now mrun.
Qed.

Lemma as_tuple_pair σ s1 s2 :
  isinstance σ s1 (TClass CSet) = true →
  isinstance σ s2 (TClass CSet) = true →
  as_tuple (VTuple [s1; s2]) (Some (TClass CSet)) (Some 2) σ
  = (Ok (VTuple [s1; s2]), σ).
Proof.
  intros H1 H2. unfold as_tuple.
  change (2 =? 0) with false. change (len _ =? 2) with true. mrun.
  change (forallb _ _)
    with (isinstance σ s1 (TClass CSet)
          && (isinstance σ s2 (TClass CSet) && true)).
  now rewrite H1, H2.
Qed.

(** A Mat is declared on a pair of Sets, given as a two-element tuple or
    list; a single Set stands for the pair of it with itself. *)
Lemma new_Mat_ok σ s1 s2 dim datatype name :
  isinstance σ s1 (TClass CSet) = true →
  isinstance σ s2 (TClass CSet) = true →
  isinstance σ name TStr = true →
  new_Mat (VTuple [s1; s2]) dim datatype name σ
  = (Ok (VRef (length σ)),
     σ ++ [Obj CMat (Mat_fields (VTuple [s1; s2]) dim datatype name
                       VNone VNone)]).
Proof.
  intros H1 H2 Hn.
  unfold new_Mat, Mat_init. mrun.
  rewrite (isinstance_mono _ _ _ _ Hn).
  mrun. rewrite as_tuple_pair by now apply isinstance_mono.
  mrun. rewrite !setattr_new. now mrun.
Qed.

(** ** Steps shared by the binding operations *)

Lemma copy_object σ l o :
  σ !! l = Some o → copy (VRef l) σ = (Ok (VRef (length σ)), σ ++ [o]).
Proof. intros H. unfold copy. now rewrite H. Qed.

Lemma is_none_false v : v ≠ VNone → is_none v = false.
Proof. now destruct v. Qed.

Lemma assert_access_ok σ l c d a modes :
  σ !! l = Some (Obj c d) → d !! "_modes" = None →
  class_attr c "_modes" = Some modes → py_in σ a modes = Ok true →
  assert_access (VRef l) a σ = (Ok (), σ).
Proof.
  intros Hl Hd Hc Hin. unfold assert_access. mrun.
  erewrite getattr_class by eassumption. mrun. now rewrite Hin.
Qed.

Lemma access_message_Global σ :
  imported σ →
  fmt1 "Acess descriptor must be one of %s" (VList [READ; INC]) σ
  = Ok "Acess descriptor must be one of [Access('READ'), Access('INC')]".
Proof. intros [τ ->]. reflexivity. Qed.

Lemma py_str_Access n σ l m :
  σ !! l = Some (Obj CAccess (Access_fields (VStr m))) →
  py_str (S (S n)) σ (VRef l) = Ok ("OP2 Access: " +:+ m).
Proof.
  intros H. cbn [py_str]. rewrite H. cbn [o_cls instance_str].
  unfold Access_str. erewrite getattr_field; [|exact H|reflexivity].
  cbn [rbind]. unfold format1. simpl. now rewrite append_nil_r.
Qed.

Lemma recursion_limit_S2 : ∃ n, recursion_limit = S (S n).
Proof. now exists 998%nat. Qed.

Lemma len_replicate n x :
  0 ≤ n → len (VTuple (replicate (Z.to_nat n) x)) = n.
Proof.
  intros Hn. unfold len, items_of. simpl.
  rewrite length_replicate. lia.
Qed.

(** *** The checks leave the store alone *)

Lemma preserving_reading {A} (f : heap → res A) : preserving (reading f).
Proof. intros σ r σ' [= _ <-]. reflexivity. Qed.

Lemma preserving_ret {A} (a : A) : preserving (ret a).
Proof. intros σ r σ' [= _ <-]. reflexivity. Qed.

Lemma preserving_assert c msg : preserving (py_assert c msg).
Proof.
  intros σ r σ'. unfold py_assert.
  destruct c; [|destruct (msg σ)]; intros [= _ <-]; reflexivity.
Qed.

Lemma preserving_bind {A B} (m : M A) (k : A → M B) :
  preserving m → (∀ a, preserving (k a)) → preserving (bind m k).
Proof.
  intros Hm Hk σ r σ'. unfold bind.
  destruct (m σ) as [[a|e] σ1] eqn:E; apply Hm in E as ->.
  - apply Hk.
  - now intros [= _ <-].
Qed.

Lemma preserving_assert_access self access :
  preserving (assert_access self access).
Proof.
  unfold assert_access, attr, pure.
  repeat (apply preserving_bind; [|intros ?]);
    auto using preserving_reading, preserving_assert.
Qed.

Lemma preserving_Mat_call_loop pairs : preserving (Mat_call_loop pairs).
Proof.
  induction pairs as [|[map set] pairs IH]; [apply preserving_ret|].
  cbn [Mat_call_loop]. unfold attr.
  repeat (apply preserving_bind; [|intros ?]);
    auto using preserving_reading, preserving_assert.
Qed.

Lemma bind_inv {A B} (m : M A) (k : A → M B) σ r σ' :
  bind m k σ = (Ok r, σ') →
  ∃ a σ1, m σ = (Ok a, σ1) ∧ k a σ1 = (Ok r, σ').
Proof.
  unfold bind. destruct (m σ) as [[a|e] σ1]; [eauto|discriminate].
Qed.

Lemma bind_preserving_inv {A B} (m : M A) (k : A → M B) σ r σ' :
  preserving m → bind m k σ = (Ok r, σ') → ∃ a, k a σ = (Ok r, σ').
Proof.
  intros Hm H. apply bind_inv in H as (a & σ1 & H1 & H2).
  apply Hm in H1 as ->. eauto.
Qed.

(** *** [copy] and the assignments that follow it *)

Lemma copy_inv self σ a σ1 :
  copy self σ = (Ok a, σ1) →
  (∃ l o, self = VRef l ∧ σ !! l = Some o
          ∧ a = VRef (length σ) ∧ σ1 = σ ++ [o])
  ∨ ((∀ l, self ≠ VRef l) ∧ a = self ∧ σ1 = σ).
Proof.
  unfold copy.
  destruct self;
    try (intros [= <- <-]; right; split; [intros ?; discriminate|done]).
  destruct (σ !! l) eqn:E; intros [= <- <-]. left. eauto 10.
Qed.

Lemma setattr_inv v name x σ u σ1 :
  setattr v name x σ = (Ok u, σ1) →
  ∃ l o, v = VRef l ∧ σ !! l = Some o
         ∧ σ1 = <[l := Obj (o_cls o) (<[name := x]> (o_dict o))]> σ.
Proof.
  unfold setattr. destruct v; try discriminate.
  destruct (σ !! l) eqn:E; [|discriminate]. intros [= _ <-]. eauto.
Qed.

Lemma setattr_copy_inv σ o name x u σ1 :
  setattr (VRef (length σ)) name x (σ ++ [o]) = (Ok u, σ1) →
  ∃ o', σ1 = σ ++ [o'] ∧ o_cls o' = o_cls o.
Proof.
  destruct o as [c d]. rewrite setattr_new. intros [= _ <-]. eauto.
Qed.

(** [arg = copy(self); arg.f = x; return arg] *)
Lemma copy_set1 self f x σ r σ' :
  (arg <- copy self ;; _ <- setattr arg f x ;; ret arg) σ = (Ok r, σ') →
  fresh_copy σ self r σ'.
Proof.
  intros H. apply bind_inv in H as (a & σ1 & Hc & H).
  apply bind_inv in H as ([] & σ2 & Hs & [= <- <-]).
  apply copy_inv in Hc as [(l & o & -> & Hl & -> & ->)|(Hn & -> & ->)].
  - apply setattr_copy_inv in Hs as (o' & -> & Hc). now exists l, o, o'.
  - apply setattr_inv in Hs as (l & _ & -> & _). now destruct (Hn l).
Qed.

(** [arg = copy(self); arg.f = x; arg.g = y; return arg] *)
Lemma copy_set2 self f x g y σ r σ' :
  (arg <- copy self ;; _ <- setattr arg f x ;; _ <- setattr arg g y ;;
   ret arg) σ = (Ok r, σ') →
  fresh_copy σ self r σ'.
Proof.
  intros H. apply bind_inv in H as (a & σ1 & Hc & H).
  apply bind_inv in H as ([] & σ2 & Hs & H).
  apply bind_inv in H as ([] & σ3 & Hs' & [= <- <-]).
  apply copy_inv in Hc as [(l & o & -> & Hl & -> & ->)|(Hn & -> & ->)].
  - apply setattr_copy_inv in Hs as (o' & -> & Hc).
    apply setattr_copy_inv in Hs' as (o'' & -> & Hc').
    exists l, o, o''. repeat split; try done. congruence.
  - apply setattr_inv in Hs as (l & _ & -> & _). now destruct (Hn l).
Qed.

Lemma run_binding_fresh_copy b σ r σ' :
  run_binding b σ = (Ok r, σ') → fresh_copy σ (receiver b) r σ'.
Proof.
  destruct b as [self map access|self maps access|self access|self index];
    cbn [run_binding receiver]; intros H.
  - unfold Dat_call in H.
    apply bind_preserving_inv in H as [_ H];
      [|apply preserving_assert_access].
    apply bind_preserving_inv in H as [map_set H];
      [|apply preserving_reading].
    apply bind_preserving_inv in H as [self_set H];
      [|apply preserving_reading].
    apply bind_preserving_inv in H as [_ H]; [|apply preserving_assert].
    now apply copy_set2 in H.
  - unfold Mat_call in H.
    apply bind_preserving_inv in H as [_ H];
      [|apply preserving_assert_access].
    apply bind_preserving_inv in H as [sets H]; [|apply preserving_reading].
    apply bind_preserving_inv in H as [pairs H]; [|apply preserving_reading].
    apply bind_preserving_inv in H as [_ H];
      [|apply preserving_Mat_call_loop].
    now apply copy_set2 in H.
  - unfold Global_call in H.
    apply bind_preserving_inv in H as [_ H];
      [|apply preserving_assert_access].
    now apply copy_set1 in H.
  - unfold Map_indexed in H.
    apply bind_preserving_inv in H as [current H];
      [|apply preserving_reading].
    apply bind_preserving_inv in H as [_ H]; [|apply preserving_assert].
    apply bind_preserving_inv in H as [lower H]; [|apply preserving_reading].
    apply bind_preserving_inv in H as [ok H].
    2:{ destruct lower; [|apply preserving_ret].
        apply preserving_bind; [|intros ?]; apply preserving_reading. }
    apply bind_preserving_inv in H as [_ H]; [|apply preserving_assert].
    now apply copy_set1 in H.
Qed.

(** *** Binding a carrier to real Maps *)

(** [Dat.__call__] reads [map._set]; a Map keeps its Sets in [_from] and
    [_to] and has no [_set]. *)
Lemma Dat_call_on_Map σ d m set dim datatype data name
    frm to mdim values mname index a :
  is_Dat σ d set dim datatype data name →
  is_Map σ m frm to mdim values mname index →
  canonical a →
  Dat_call (VRef d) (VRef m) a σ = (Raise no_set_attribute, σ).
Proof.
  intros Hd Hm Ha. unfold Dat_call.
  erewrite bind_ok;
    [|eapply assert_access_ok;
      [exact Hd|reflexivity..|now apply py_in_canonical]].
  mrun. erewrite getattr_missing; [|exact Hm|reflexivity..]. reflexivity.
Qed.

Lemma Mat_call_on_Maps σ mat s1 s2 dim datatype name
    m1 frm to mdim values mname index rest a maps :
  is_Mat σ mat (VTuple [s1; s2]) dim datatype name →
  is_Map σ m1 frm to mdim values mname index →
  maps = VTuple (VRef m1 :: rest) ∨ maps = VList (VRef m1 :: rest) →
  canonical a →
  Mat_call (VRef mat) maps a σ = (Raise no_set_attribute, σ).
Proof.
  intros HM Hm Hmaps Ha. unfold Mat_call.
  erewrite bind_ok;
    [|eapply assert_access_ok;
      [exact HM|reflexivity..|now apply py_in_canonical]].
  mrun. erewrite getattr_field; [|exact HM|reflexivity]. mrun.
  assert (py_iter maps = Some (VRef m1 :: rest)) as ->
    by (destruct Hmaps as [-> | ->]; reflexivity).
  cbn [py_iter zip Mat_call_loop]. mrun.
  erewrite getattr_missing; [|exact Hm|reflexivity..]. reflexivity.
Qed.

(** A Map indexed at 0 renders as the Map that was never indexed. *)
Lemma Map_str_index_zero str repr σ m m' frm to dim values name :
  is_Map σ m frm to dim values name (VInt 0) →
  is_Map σ m' frm to dim values name VNone →
  Map_str str repr σ (VRef m) = Map_str str repr σ (VRef m').
Proof.
  intros H H'. unfold Map_str.
  repeat (erewrite (getattr_field _ m); [|exact H|reflexivity]).
  repeat (erewrite (getattr_field _ m'); [|exact H'|reflexivity]).
  reflexivity.
Qed.

(** ** The claims *)

(** C1 (as the code has it): for every Dat declared on a Set and every
    unindexed Map whose from-Set is that same Set, binding the Dat to the Map
    with one of the canonical modes READ, WRITE, RW, INC does not return a
    bound copy: the compatibility check reads [map._set], which no Map has,
    and the call raises AttributeError, leaving the store as it was. *)
Theorem Dat_call_matching_Map_raises (σ : heap) (d m : loc)
    (set dim datatype data name to mdim values mname a : val) :
  is_Dat σ d set dim datatype data name →
  is_Map σ m set to mdim values mname VNone →
  canonical a →
  Dat_call (VRef d) (VRef m) a σ = (Raise no_set_attribute, σ).
Proof. intros Hd Hm Ha. eapply Dat_call_on_Map; eassumption. Qed.

Lemma Dat_call_matching_Map_raises_witness :
  Dat_call (VRef 6) (VRef 5) READ scenario_heap
  = (Raise no_set_attribute, scenario_heap).
Proof.
  apply (Dat_call_matching_Map_raises scenario_heap 6%nat 5%nat (VRef 4)
           (VInt 1) (VStr "double") VNone (VStr "d") (VRef 4) (VInt 2) VNone
           (VStr "m") READ).
  - reflexivity.
  - reflexivity.
  - left. reflexivity.
Defined.

(** C2 (as the code has it): binding a Dat to a Map whose from-Set is not
    the Dat's Set, or a Mat to a pair of Maps of which one has a from-Set
    that is not the Mat's Set at that position, with a canonical mode, does
    not raise the assertion about mismatched sets: reading [map._set] raises
    AttributeError before the comparison is made. *)
Theorem mismatched_binding_raises_AttributeError (σ : heap)
    (d mat m m2 : loc)
    (set dim datatype data name s1 s2 mdim' mdatatype mname' : val)
    (frm to mdim values mname frm2 to2 mdim2 values2 mname2 a : val) :
  is_Map σ m frm to mdim values mname VNone →
  is_Map σ m2 frm2 to2 mdim2 values2 mname2 VNone →
  canonical a →
  (is_Dat σ d set dim datatype data name → frm ≠ set →
   Dat_call (VRef d) (VRef m) a σ = (Raise no_set_attribute, σ))
  ∧ (is_Mat σ mat (VTuple [s1; s2]) mdim' mdatatype mname' →
     frm ≠ s1 ∨ frm2 ≠ s2 →
     Mat_call (VRef mat) (VTuple [VRef m; VRef m2]) a σ
     = (Raise no_set_attribute, σ)).
Proof.
  intros Hm Hm2 Ha. split.
  - intros Hd _. eapply Dat_call_on_Map; eassumption.
  - intros HM _.
    eapply Mat_call_on_Maps; [exact HM|exact Hm|left; reflexivity|exact Ha].
Qed.

Lemma mismatched_binding_raises_AttributeError_witness :
  Dat_call (VRef 7) (VRef 6) READ carriers_heap
  = (Raise no_set_attribute, carriers_heap)
  ∧ Mat_call (VRef 8) (VTuple [VRef 6; VRef 6]) READ carriers_heap
    = (Raise no_set_attribute, carriers_heap).
Proof.
  destruct (mismatched_binding_raises_AttributeError carriers_heap
              7%nat 8%nat 6%nat 6%nat
              (VRef 4) (VInt 1) (VStr "double") VNone (VStr "d")
              (VRef 4) (VRef 4) (VInt 1) (VStr "double") (VStr "mat")
              (VRef 5) (VRef 4) (VInt 2) VNone (VStr "m")
              (VRef 5) (VRef 4) (VInt 2) VNone (VStr "m") READ)
    as [HDat HMat]; [reflexivity|reflexivity|left; reflexivity|].
  split.
  - apply HDat; [reflexivity|discriminate].
  - apply HMat; [reflexivity|left; discriminate].
Defined.

(** C3: for an unindexed Map of dimension [dim] and an integer [i] with
    [0 <= i < dim], [indexed(i)] returns a new Map whose index is [i]; on a
    Map whose index is already set, [indexed] fails, whatever the argument;
    and with an integer outside [[0, dim)] it fails.  The failures are the
    two assertions of the method, and leave the store as it was. *)
Theorem Map_indexed_spec (σ : heap) (m : loc)
    (frm to values name : val) (dim : Z) :
  (∀ i, is_Map σ m frm to (VInt dim) values name VNone → 0 ≤ i < dim →
     Map_indexed (VRef m) (VInt i) σ
     = (Ok (VRef (length σ)),
        σ ++ [Obj CMap (Map_fields frm to (VInt dim) values name (VInt i))])
     ∧ getattr (σ ++ [Obj CMap (Map_fields frm to (VInt dim) values name
                                  (VInt i))])
         (VRef (length σ)) "_index" = Ok (VInt i))
  ∧ (∀ current index d,
       is_Map σ m frm to d values name current → current ≠ VNone →
       Map_indexed (VRef m) index σ
       = (Raise (AssertionError "Map has already been indexed"), σ))
  ∧ (∀ current i,
       is_Map σ m frm to (VInt dim) values name current → ¬ (0 ≤ i < dim) →
       ∃ msg, Map_indexed (VRef m) (VInt i) σ
              = (Raise (AssertionError msg), σ)).
Proof.
  split; [|split].
  - intros i Hm Hi. split.
    + unfold Map_indexed. mrun.
      erewrite getattr_field; [|exact Hm|reflexivity]. mrun.
      destruct (Z.leb_spec 0 i); [|lia]. mrun.
      erewrite getattr_field; [|exact Hm|reflexivity]. mrun.
      destruct (Z.ltb_spec i dim); [|lia]. mrun.
      rewrite (copy_object _ _ _ Hm). mrun.
      rewrite setattr_new. mrun.
      unfold Map_fields. now rewrite insert_insert_eq.
    + erewrite getattr_field; [reflexivity|apply lookup_new|reflexivity].
  - intros current index d Hm Hc. unfold Map_indexed. mrun.
    erewrite getattr_field; [|exact Hm|reflexivity]. mrun.
    now rewrite (is_none_false _ Hc).
  - intros current i Hm Hi.
    assert (current = VNone ∨ current ≠ VNone) as [-> | Hc]
      by (destruct current; auto; right; discriminate).
    + unfold Map_indexed. mrun.
      erewrite getattr_field; [|exact Hm|reflexivity]. mrun.
      destruct (Z.leb_spec 0 i); mrun.
      * erewrite getattr_field; [|exact Hm|reflexivity]. mrun.
        destruct (Z.ltb_spec i dim); [lia|]. mrun.
        erewrite getattr_field; [|exact Hm|reflexivity]. mrun.
        rewrite fmt1_interval_message. eauto.
      * erewrite getattr_field; [|exact Hm|reflexivity].
        mrun. rewrite fmt1_interval_message. eauto.
    + exists "Map has already been indexed". unfold Map_indexed. mrun.
      erewrite getattr_field; [|exact Hm|reflexivity]. mrun.
      now rewrite (is_none_false _ Hc).
Qed.

Lemma Map_indexed_spec_witness :
  (Map_indexed (VRef 10) (VInt 2) carriers_heap
   = (Ok (VRef 12),
      carriers_heap ++ [Obj CMap (Map_fields (VRef 4) (VRef 4) (VInt 3) VNone
                                    (VStr "m3") (VInt 2))])
   ∧ getattr (carriers_heap ++ [Obj CMap (Map_fields (VRef 4) (VRef 4)
                                            (VInt 3) VNone (VStr "m3")
                                            (VInt 2))])
       (VRef 12) "_index" = Ok (VInt 2))
  ∧ Map_indexed (VRef 11) (VInt 0) carriers_heap
    = (Raise (AssertionError "Map has already been indexed"), carriers_heap)
  ∧ ∃ msg, Map_indexed (VRef 10) (VInt 3) carriers_heap
           = (Raise (AssertionError msg), carriers_heap).
Proof.
  destruct (Map_indexed_spec carriers_heap 10%nat (VRef 4) (VRef 4) VNone
              (VStr "m3") 3) as (Hok & _ & Hrange).
  destruct (Map_indexed_spec carriers_heap 11%nat (VRef 4) (VRef 4) VNone
              (VStr "m3") 3) as (_ & Hagain & _).
  split; [|split].
  - apply (Hok 2); [reflexivity|lia].
  - apply (Hagain (VInt 2) (VInt 0) (VInt 3)); [reflexivity|discriminate].
  - apply (Hrange VNone 3); [reflexivity|lia].
Defined.

(** C4 as stated fails: [Set(-1, "s")] is constructed, and its size is -1. *)
Lemma Set_negative_size : ¬ Set_size_nonneg [] (VInt (-1)) (VStr "s").
Proof.
  intros H. destruct (H _ _ eq_refl) as (n & Hn & Hpos).
  vm_compute in Hn. injection Hn as <-. lia.
Qed.

(** C4 (amended): every successfully constructed Set has a size that is an
    instance of [int], namely the value the constructor was given, and
    [size()] returns it; no sign is checked. *)
Theorem Set_size_is_int (σ σ' : heap) (size name r : val) :
  new_Set size name σ = (Ok r, σ') →
  isinstance σ' size TInt = true ∧ Set_size r σ' = (Ok size, σ').
Proof.
  rewrite new_Set_eq. rewrite (isinstance_int_heap σ' σ).
  destruct (isinstance σ size TInt); [|discriminate].
  destruct (isinstance σ name TStr); [|discriminate].
  intros [= <- <-]. split; [reflexivity|].
  unfold Set_size. mrun.
  erewrite getattr_field; [reflexivity|apply lookup_new|reflexivity].
Qed.

Lemma Set_size_is_int_witness :
  isinstance [Obj CSet (Set_fields (VInt (-1)) (VStr "s"))] (VInt (-1)) TInt
  = true
  ∧ Set_size (VRef 0) [Obj CSet (Set_fields (VInt (-1)) (VStr "s"))]
    = (Ok (VInt (-1)), [Obj CSet (Set_fields (VInt (-1)) (VStr "s"))]).
Proof.
  apply (Set_size_is_int [] _ (VInt (-1)) (VStr "s") (VRef 0)).
  reflexivity.
Defined.

(** C5 (as the code has it): on the scenario's Map, [indexed(0)] and
    [indexed(1)] both succeed and set the index; the rendering of the second
    ends with its component, the rendering of the first does not mention
    component 0, because [__str__] tests the truth of the index. *)
Theorem Map_str_omits_component_zero :
  fst (indexed_renderings [])
  = Ok [(VInt 0,
         "OP2 Map: m from (OP2 Set: elems with size 10) to (OP2 Set: elems with size 10) with dim 2");
        (VInt 1,
         "OP2 Map: m from (OP2 Set: elems with size 10) to (OP2 Set: elems with size 10) with dim 2 and component 1")].
Proof. vm_compute. reflexivity. Qed.

(** C6: binding a Global to READ or INC returns a new object that is the
    Global with its access set to that mode, and that has neither a [_map]
    nor a [_maps] field; binding it to WRITE or RW fails on the assertion
    about the access descriptor. *)
Theorem Global_call_spec (σ : heap) (g : loc) (val_ name current a : val) :
  is_Global σ g val_ name current →
  (a = READ ∨ a = INC →
   Global_call (VRef g) a σ
   = (Ok (VRef (length σ)), σ ++ [Obj CGlobal (Global_fields val_ name a)])
   ∧ Global_fields val_ name a !! "_access" = Some a
   ∧ Global_fields val_ name a !! "_map" = None
   ∧ Global_fields val_ name a !! "_maps" = None)
  ∧ (a = WRITE ∨ a = RW → imported σ →
     Global_call (VRef g) a σ
     = (Raise (AssertionError
          "Acess descriptor must be one of [Access('READ'), Access('INC')]"),
        σ)).
Proof.
  intros Hg. split.
  - intros Ha. split; [|now repeat split].
    unfold Global_call.
    erewrite bind_ok; [|eapply assert_access_ok; [exact Hg|reflexivity..|]].
    2:{ destruct Ha as [-> | ->]; reflexivity. }
    rewrite (bind_ok _ _ _ _ _ (copy_object _ _ _ Hg)).
    mrun. rewrite setattr_new. unfold Global_fields.
    now rewrite insert_insert_eq.
  - intros Ha Himp. unfold Global_call, assert_access. mrun.
    erewrite getattr_class; [|exact Hg|reflexivity..]. mrun.
    assert (py_in σ a (VList [READ; INC]) = Ok false) as ->
      by (destruct Ha as [-> | ->]; reflexivity).
    now rewrite access_message_Global.
Qed.

Lemma Global_call_spec_witness :
  Global_call (VRef 9) INC carriers_heap
  = (Ok (VRef 12),
     carriers_heap ++ [Obj CGlobal (Global_fields (VInt 0) (VStr "g") INC)])
  ∧ Global_call (VRef 9) RW carriers_heap
    = (Raise (AssertionError
         "Acess descriptor must be one of [Access('READ'), Access('INC')]"),
       carriers_heap).
Proof.
  split.
  - apply (Global_call_spec carriers_heap 9%nat (VInt 0) (VStr "g") VNone INC);
      [reflexivity|right; reflexivity].
  - apply (Global_call_spec carriers_heap 9%nat (VInt 0) (VStr "g") VNone RW);
      [reflexivity|right; reflexivity|].
    eexists. reflexivity.
Defined.

(** C7: when [Dat.__call__], [Mat.__call__], [Global.__call__] or
    [Map.indexed] returns, the receiver and every other object of the store
    have the class and the fields they had before, and the value returned is
    an object of the new store, an instance of the receiver's class, that
    did not exist before, hence not the receiver. *)
Theorem binding_does_not_mutate (b : binding) (σ σ' : heap) (r : val) :
  run_binding b σ = (Ok r, σ') → untouched σ (receiver b) r σ'.
Proof.
  intros H. apply run_binding_fresh_copy in H
    as (l & o & o' & Hself & Hl & -> & -> & Hc).
  exists l, o, (length σ), o'. repeat split; try done.
  - now apply lookup_app_l_Some.
  - intros l' o'' Hl'. now apply lookup_app_l_Some.
  - now apply lookup_ge_None_2.
  - apply lookup_lt_Some in Hl. lia.
  - apply lookup_new.
Qed.

Lemma binding_does_not_mutate_witness :
  untouched carriers_heap (VRef 9) (VRef 12)
    (snd (Global_call (VRef 9) INC carriers_heap))
  ∧ untouched carriers_heap (VRef 10) (VRef 12)
      (snd (Map_indexed (VRef 10) (VInt 2) carriers_heap))
  ∧ untouched carriers_heap (VRef 8) (VRef 12)
      (snd (Mat_call (VRef 8) (VTuple []) WRITE carriers_heap))
  ∧ untouched carriers_heap (VRef 7) (VRef 12)
      (snd (Dat_call (VRef 7) (VRef 7) RW carriers_heap)).
Proof.
  repeat split.
  - apply (binding_does_not_mutate (Global_binding (VRef 9) INC)).
    reflexivity.
  - apply (binding_does_not_mutate (Map_indexing (VRef 10) (VInt 2))).
    reflexivity.
  - apply (binding_does_not_mutate (Mat_binding (VRef 8) (VTuple []) WRITE)).
    reflexivity.
  - apply (binding_does_not_mutate (Dat_binding (VRef 7) (VRef 7) RW)).
    reflexivity.
Defined.

(** C8 as stated fails: with the required length 0, [as_tuple([1, 2])]
    returns [(1, 2)], whose length is not 0. *)
Lemma as_tuple_length_zero_unchecked :
  ¬ as_tuple_length_enforced [] (VList [VInt 1; VInt 2]) None 0.
Proof.
  intros H. destruct H as (e & σ' & H); [vm_compute; discriminate|].
  vm_compute in H. discriminate H.
Qed.

(** C8 (amended): [as_tuple(None)] is the empty list; a scalar that is not
    iterable, with a positive length [n], gives the tuple of [n] copies of
    it; an iterable whose number of items is the given length gives the
    tuple of its items; and when the given length is not zero and the
    sequence built from the item has another length, [as_tuple] fails on
    its length assertion. *)
Theorem as_tuple_spec (σ : heap) :
  as_tuple VNone None None σ = (Ok (VList []), σ)
  ∧ (∀ x n, x ≠ VNone → py_iter x = None → 0 < n →
       as_tuple x None (Some n) σ
       = (Ok (VTuple (replicate (Z.to_nat n) x)), σ))
  ∧ (∀ x items n, py_iter x = Some items →
       Z.of_nat (length items) = n →
       as_tuple x None (Some n) σ = (Ok (VTuple items), σ))
  ∧ (∀ item type n, n ≠ 0 → len (coerce item (Some n)) ≠ n →
       as_tuple item type (Some n) σ
       = (Raise (AssertionError
                   ("Tuple needs to be of length " +:+ pretty n)), σ)).
Proof.
  split; [reflexivity|]. split; [|split].
  - intros x n Hx Hit Hn. unfold as_tuple, coerce.
    assert (is_none x = false) as -> by now destruct x.
    rewrite Hit. unfold length_or_1.
    destruct (Z.eqb_spec n 0) as [->|_]; [lia|].
    rewrite len_replicate by lia. rewrite Z.eqb_refl. now mrun.
  - intros x items n Hit Hn. unfold as_tuple, coerce.
    assert (is_none x = false) as -> by now destruct x.
    rewrite Hit.
    assert (len (VTuple items) = n) as -> by exact Hn.
    rewrite Z.eqb_refl. destruct (n =? 0); now mrun.
  - intros item type n Hn Hlen. unfold as_tuple.
    destruct (Z.eqb_spec n 0) as [->|_]; [done|].
    destruct (Z.eqb_spec (len (coerce item (Some n))) n) as [?|_]; [done|].
    mrun. now rewrite fmt1_length_message.
Qed.

Lemma as_tuple_spec_witness :
  as_tuple (VInt 5) None (Some 3) []
  = (Ok (VTuple [VInt 5; VInt 5; VInt 5]), [])
  ∧ as_tuple (VList [VInt 1; VInt 2; VInt 3]) None (Some 3) []
    = (Ok (VTuple [VInt 1; VInt 2; VInt 3]), [])
  ∧ as_tuple (VList [VInt 1; VInt 2]) None (Some 3) []
    = (Raise (AssertionError "Tuple needs to be of length 3"), []).
Proof.
  destruct (as_tuple_spec []) as (_ & Hscalar & Hiter & Hfail).
  split; [|split].
  - apply (Hscalar (VInt 5) 3); [discriminate|reflexivity|lia].
  - apply (Hiter (VList [VInt 1; VInt 2; VInt 3]) _ 3); reflexivity.
  - apply (Hfail (VList [VInt 1; VInt 2]) None 3);
      [lia|vm_compute; discriminate].
Defined.

(** C9: for each of the strings READ, WRITE, RW, INC, [Access(m)] is
    constructed and its string form contains [m]; for every other string the
    construction fails. *)
Theorem Access_construction (σ : heap) (m : string) :
  (In m ["READ"; "WRITE"; "RW"; "INC"] →
   ∃ a σ', new_Access (VStr m) σ = (Ok a, σ')
           ∧ str σ' a = Ok ("OP2 Access: " +:+ m)
           ∧ occurs_in m ("OP2 Access: " +:+ m)) ∧
  (¬ In m ["READ"; "WRITE"; "RW"; "INC"] →
   ∃ σ', new_Access (VStr m) σ
         = (Raise (AssertionError
                     "Mode needs to be one of ['READ', 'WRITE', 'RW', 'INC']"),
            σ')).
Proof.
  split; intros Hm.
  - eexists _, _. split; [now apply new_Access_ok|].
    unfold str. destruct recursion_limit_S2 as [n ->].
    rewrite (py_str_Access n _ _ m) by apply lookup_new.
    split; [reflexivity|]. exists "OP2 Access: ", "".
    now rewrite append_nil_r.
  - eexists. now apply new_Access_bad.
Qed.

Lemma Access_construction_witness :
  (∃ a σ', new_Access (VStr "READ") [] = (Ok a, σ')
           ∧ str σ' a = Ok "OP2 Access: READ"
           ∧ occurs_in "READ" "OP2 Access: READ") ∧
  (∃ σ', new_Access (VStr "read") []
         = (Raise (AssertionError
                     "Mode needs to be one of ['READ', 'WRITE', 'RW', 'INC']"),
            σ')).
Proof.
  split.
  - apply (Access_construction [] "READ"). simpl. tauto.
  - apply (Access_construction [] "read"). simpl.
    intros [H|[H|[H|[H|[]]]]]; discriminate H.
Defined.

(** C10: calling a Mat with an empty sequence of maps (a value whose
    iteration yields nothing: [()], [[]]) and a canonical mode makes no
    comparison of sets, whatever the Sets of the Mat are, and returns a new
    object that is the Mat with that empty sequence as its maps and the mode
    as its access. *)
Theorem Mat_call_no_maps (σ : heap) (mat : loc)
    (s1 s2 dim datatype name a empty : val) :
  is_Mat σ mat (VTuple [s1; s2]) dim datatype name →
  canonical a →
  py_iter empty = Some [] →
  Mat_call (VRef mat) empty a σ
  = (Ok (VRef (length σ)),
     σ ++ [Obj CMat (Mat_fields (VTuple [s1; s2]) dim datatype name
                       empty a)]).
Proof.
  intros Hm Ha He. unfold Mat_call.
  erewrite bind_ok;
    [|eapply assert_access_ok;
      [exact Hm|reflexivity..|now apply py_in_canonical]].
  mrun. erewrite getattr_field; [|exact Hm|reflexivity]. mrun.
  rewrite He. cbn [py_iter zip Mat_call_loop]. mrun.
  rewrite (copy_object _ _ _ Hm). mrun. rewrite !setattr_new. mrun.
  unfold Mat_fields.
  rewrite (insert_insert_ne _ "_access" "_maps") by done.
  rewrite insert_insert_eq.
  rewrite (insert_insert_ne _ "_maps" "_access") by done.
  now rewrite insert_insert_eq.
Qed.

Lemma Mat_call_no_maps_witness :
  Mat_call (VRef 8) (VTuple []) WRITE carriers_heap
  = (Ok (VRef 12),
     carriers_heap ++ [Obj CMat (Mat_fields (VTuple [VRef 4; VRef 4])
                                   (VInt 1) (VStr "double") (VStr "mat")
                                   (VTuple []) WRITE)]).
Proof.
  apply (Mat_call_no_maps carriers_heap 8%nat (VRef 4) (VRef 4) (VInt 1)
           (VStr "double") (VStr "mat") WRITE (VTuple []));
    [reflexivity|right; left; reflexivity|reflexivity].
Defined.

(** ** Further properties of the module *)

(** *** The store only grows *)

Lemma preserving_assert_dep (c : heap → bool) msg :
  preserving (λ σ, py_assert (c σ) msg σ).
Proof. intros σ r σ' H. now apply preserving_assert in H. Qed.

Lemma preserving_raise {A} (e : exn) : preserving (@raise A e).
Proof. intros σ r σ' [= _ <-]. reflexivity. Qed.

Lemma preserving_as_tuple item type length :
  preserving (as_tuple item type length).
Proof.
  unfold as_tuple.
  apply preserving_bind; [|intros _; apply preserving_bind; [|intros _]].
  - destruct length as [n|]; [destruct (n =? 0)|];
      auto using preserving_ret, preserving_assert.
  - destruct type; [apply preserving_assert_dep|apply preserving_ret].
  - apply preserving_ret.
Qed.

Lemma initialising_preserving {A} σ (m : M A) :
  preserving m → initialising σ m.
Proof. intros Hm o r σ' H. apply Hm in H as ->. eauto. Qed.

Lemma initialising_bind {A B} σ (m : M A) (k : A → M B) :
  initialising σ m → (∀ a, initialising σ (k a)) → initialising σ (bind m k).
Proof.
  intros Hm Hk o r σ'. unfold bind.
  destruct (m (σ ++ [o])) as [[a|e] σ1] eqn:E; apply Hm in E as [o1 ->].
  - apply Hk.
  - intros [= _ <-]. eauto.
Qed.

Lemma initialising_setattr σ name x :
  initialising σ (setattr (VRef (length σ)) name x).
Proof.
  intros [c d] r σ'. rewrite setattr_new. intros [= _ <-]. eauto.
Qed.

Lemma growing_preserving {A} (m : M A) : preserving m → growing m.
Proof.
  intros Hm σ r σ' H. apply Hm in H as ->. exists []. now rewrite app_nil_r.
Qed.

Lemma growing_construct c init :
  (∀ σ, initialising σ (init (VRef (length σ)))) →
  growing (construct c init).
Proof.
  intros Hinit σ r σ'. unfold construct, new, bind at 1.
  unfold bind.
  destruct (init (VRef (length σ)) (σ ++ [Obj c ∅])) as [[[]|e] σ1] eqn:E;
    apply Hinit in E as [o' ->]; intros [= _ <-]; eauto.
Qed.

(** [arg = copy(self)] and the assignments to [arg]. *)
Lemma growing_copy_then {A} self (k : val → M A) :
  (∀ σ, initialising σ (k (VRef (length σ)))) →
  (∀ v, (∀ l, v ≠ VRef l) → preserving (k v)) →
  growing (bind (copy self) k).
Proof.
  intros Hk Hk' σ r σ'. unfold bind.
  destruct (copy self σ) as [[a|e] σ1] eqn:E.
  - apply copy_inv in E as [(l & o & -> & Hl & -> & ->)|(Hn & -> & ->)].
    + intros H. apply Hk in H as [o' ->]. eauto.
    + intros H. apply (Hk' _ Hn) in H as ->. exists []. now rewrite app_nil_r.
  - unfold copy in E. destruct self; try discriminate.
    destruct (σ !! l); [discriminate|]. injection E as _ <-.
    intros [= _ <-]. exists []. now rewrite app_nil_r.
Qed.

Lemma preserving_setattr_non_ref v name x :
  (∀ l, v ≠ VRef l) → preserving (setattr v name x).
Proof.
  intros Hv σ r σ'. unfold setattr. destruct v; try (now intros [= _ <-]).
  now destruct (Hv l).
Qed.

Lemma growing_bind_preserving {A B} (m : M A) (k : A → M B) :
  preserving m → (∀ a, growing (k a)) → growing (bind m k).
Proof.
  intros Hm Hk σ r σ'. unfold bind.
  destruct (m σ) as [[a|e] σ1] eqn:E; apply Hm in E as ->.
  - apply Hk.
  - intros [= _ <-]. exists []. now rewrite app_nil_r.
Qed.

(** Walks through the body of an [__init__]. *)
Ltac init_steps :=
  repeat (apply initialising_bind; [|intros ?]);
  try apply initialising_setattr;
  try (apply initialising_preserving;
       first [apply preserving_assert_dep | apply preserving_assert
             | apply preserving_reading | apply preserving_as_tuple
             | apply preserving_ret]).

Lemma growing_run_binding b : growing (run_binding b).
Proof.
  destruct b as [self map access|self maps access|self access|self index];
    cbn [run_binding].
  - unfold Dat_call.
    apply growing_bind_preserving; [apply preserving_assert_access|intros _].
    apply growing_bind_preserving; [apply preserving_reading|intros ?].
    apply growing_bind_preserving; [apply preserving_reading|intros ?].
    apply growing_bind_preserving; [apply preserving_assert|intros _].
    apply growing_copy_then.
    + intros σ. init_steps.
    + intros v Hv.
      apply preserving_bind;
        [|intros ?; apply preserving_bind; [|intros ?; apply preserving_ret]];
        now apply preserving_setattr_non_ref.
  - unfold Mat_call.
    apply growing_bind_preserving; [apply preserving_assert_access|intros _].
    apply growing_bind_preserving; [apply preserving_reading|intros ?].
    apply growing_bind_preserving; [apply preserving_reading|intros ?].
    apply growing_bind_preserving; [apply preserving_Mat_call_loop|intros _].
    apply growing_copy_then.
    + intros σ. init_steps.
    + intros v Hv.
      apply preserving_bind;
        [|intros ?; apply preserving_bind; [|intros ?; apply preserving_ret]];
        now apply preserving_setattr_non_ref.
  - unfold Global_call.
    apply growing_bind_preserving; [apply preserving_assert_access|intros _].
    apply growing_copy_then.
    + intros σ. init_steps.
    + intros v Hv. apply preserving_bind; [|intros ?; apply preserving_ret].
      now apply preserving_setattr_non_ref.
  - unfold Map_indexed.
    apply growing_bind_preserving; [apply preserving_reading|intros ?].
    apply growing_bind_preserving; [apply preserving_assert|intros _].
    apply growing_bind_preserving; [apply preserving_reading|intros lower].
    apply growing_bind_preserving.
    { destruct lower; [|apply preserving_ret].
      apply preserving_bind; [|intros ?]; apply preserving_reading. }
    intros ?.
    apply growing_bind_preserving; [apply preserving_assert|intros _].
    apply growing_copy_then.
    + intros σ. init_steps.
    + intros v Hv. apply preserving_bind; [|intros ?; apply preserving_ret].
      now apply preserving_setattr_non_ref.
Qed.

(** X1: no call of the module changes or removes an object: whether it
    returns or raises, the store afterwards is the store before followed by
    the objects the call allocated, so every object is found again with its
    class and fields, and a store that holds the imported module still
    does. *)
Theorem store_only_grows (c : call) (σ σ' : heap) (r : res val) :
  run_call c σ = (r, σ') →
  (∃ τ, σ' = σ ++ τ)
  ∧ (∀ l o, σ !! l = Some o → σ' !! l = Some o)
  ∧ (imported σ → imported σ').
Proof.
  intros H.
  assert (growing (run_call c)) as Hg.
  { clear. destruct c; cbn [run_call];
      try (apply growing_preserving;
           first [apply preserving_as_tuple | apply preserving_raise
                 | apply preserving_reading]).
    - apply growing_construct. intros σ.
      unfold Access_init, attr, pure. init_steps.
    - apply growing_construct. intros σ.
      unfold IterationSpace_init. init_steps.
    - apply growing_construct. intros σ. unfold Kernel_init. init_steps.
    - apply growing_construct. intros σ. unfold Set_init. init_steps.
    - apply growing_construct. intros σ. unfold Dat_init. init_steps.
    - apply growing_construct. intros σ. unfold Mat_init. init_steps.
    - apply growing_construct. intros σ. unfold Const_init. init_steps.
    - apply growing_construct. intros σ. unfold Global_init. init_steps.
    - apply growing_construct. intros σ. unfold Map_init. init_steps.
    - unfold Map_call.
      apply growing_bind_preserving; [apply preserving_assert_dep|intros _].
      apply (growing_run_binding (Map_indexing self index)).
    - apply growing_construct. intros σ. unfold ParLoop_init. init_steps.
    - apply growing_run_binding. }
  apply Hg in H as [τ ->]. split; [eauto|]. split.
  - intros l o Hl. now apply lookup_app_l_Some.
  - intros [τ0 ->]. exists (τ0 ++ τ). now rewrite app_assoc.
Qed.

Lemma store_only_grows_witness :
  (∃ τ, snd (new_Set (VInt 10) (VStr "elems") op2_heap) = op2_heap ++ τ)
  ∧ (∀ l o, op2_heap !! l = Some o →
            snd (new_Set (VInt 10) (VStr "elems") op2_heap) !! l = Some o)
  ∧ (imported op2_heap →
     imported (snd (new_Set (VInt 10) (VStr "elems") op2_heap))).
Proof.
  apply (store_only_grows (Call_Set (VInt 10) (VStr "elems")) op2_heap _
           (Ok (VRef 4))).
  reflexivity.
Defined.

(** *** Failed bindings *)

Lemma bind_raise_inv {A B} (m : M A) (k : A → M B) σ e σ' :
  preserving m → bind m k σ = (Raise e, σ') →
  σ' = σ ∨ ∃ a, k a σ = (Raise e, σ').
Proof.
  intros Hm. unfold bind.
  destruct (m σ) as [[a|e0] σ1] eqn:E; apply Hm in E as ->.
  - eauto.
  - intros [= _ <-]. now left.
Qed.

Lemma copy_then_raise {A} self (k : val → M A) σ e σ' :
  (∀ τ o, ∃ a o', k (VRef (length τ)) (τ ++ [o]) = (Ok a, τ ++ [o'])) →
  (∀ v, (∀ l, v ≠ VRef l) → preserving (k v)) →
  bind (copy self) k σ = (Raise e, σ') → σ' = σ.
Proof.
  intros Hk Hk'. unfold bind.
  destruct (copy self σ) as [[a|e0] σ1] eqn:E.
  - apply copy_inv in E as [(l & o & -> & Hl & -> & ->)|(Hn & -> & ->)].
    + destruct (Hk σ o) as (a & o' & ->). discriminate.
    + intros H. now apply (Hk' _ Hn) in H.
  - unfold copy in E. destruct self; try discriminate.
    destruct (σ !! l); [discriminate|]. injection E as _ <-.
    now intros [= _ <-].
Qed.

Lemma set1_ok f x τ o :
  ∃ a o', (_ <- setattr (VRef (length τ)) f x ;; ret (VRef (length τ)))
            (τ ++ [o]) = (Ok a, τ ++ [o']).
Proof. destruct o as [c d]. mrun. rewrite setattr_new. eauto. Qed.

Lemma set2_ok f x g y τ o :
  ∃ a o', (_ <- setattr (VRef (length τ)) f x ;;
           _ <- setattr (VRef (length τ)) g y ;; ret (VRef (length τ)))
            (τ ++ [o]) = (Ok a, τ ++ [o']).
Proof.
  destruct o as [c d]. mrun. rewrite setattr_new. mrun.
  rewrite setattr_new. eauto.
Qed.

Lemma set1_non_ref v f x :
  (∀ l, v ≠ VRef l) → preserving (_ <- setattr v f x ;; ret v).
Proof.
  intros Hv. apply preserving_bind; [|intros ?; apply preserving_ret].
  now apply preserving_setattr_non_ref.
Qed.

Lemma set2_non_ref v f x g y :
  (∀ l, v ≠ VRef l) →
  preserving (_ <- setattr v f x ;; _ <- setattr v g y ;; ret v).
Proof.
  intros Hv.
  apply preserving_bind;
    [|intros ?; apply preserving_bind; [|intros ?; apply preserving_ret]];
    now apply preserving_setattr_non_ref.
Qed.

Ltac raise_step H lem :=
  apply bind_raise_inv in H as [H|[? H]]; [exact H| |apply lem].

(** X2: when [Dat.__call__], [Mat.__call__], [Global.__call__] or
    [Map.indexed] raises, whatever the exception, the store is exactly the
    store before the call: no copy has been made. *)
Theorem failed_binding_leaves_store (b : binding) (σ σ' : heap) (e : exn) :
  run_binding b σ = (Raise e, σ') → σ' = σ.
Proof.
  destruct b as [self map access|self maps access|self access|self index];
    cbn [run_binding]; intros H.
  - unfold Dat_call in H.
    raise_step H preserving_assert_access.
    raise_step H (@preserving_reading val).
    raise_step H (@preserving_reading val).
    raise_step H preserving_assert.
    eapply copy_then_raise in H; [exact H| |].
    + intros. apply set2_ok.
    + intros. now apply set2_non_ref.
  - unfold Mat_call in H.
    raise_step H preserving_assert_access.
    raise_step H (@preserving_reading val).
    raise_step H (@preserving_reading (list (val * val))).
    raise_step H preserving_Mat_call_loop.
    eapply copy_then_raise in H; [exact H| |].
    + intros. apply set2_ok.
    + intros. now apply set2_non_ref.
  - unfold Global_call in H.
    raise_step H preserving_assert_access.
    eapply copy_then_raise in H; [exact H| |].
    + intros. apply set1_ok.
    + intros. now apply set1_non_ref.
  - unfold Map_indexed in H.
    raise_step H (@preserving_reading val).
    raise_step H preserving_assert.
    apply bind_raise_inv in H as [H|[lower H]];
      [exact H| |apply preserving_reading].
    apply bind_raise_inv in H as [H|[ok H]]; [exact H| |].
    2:{ destruct lower; [|apply preserving_ret].
        apply preserving_bind; [|intros ?]; apply preserving_reading. }
    raise_step H preserving_assert.
    eapply copy_then_raise in H; [exact H| |].
    + intros. apply set1_ok.
    + intros. now apply set1_non_ref.
Qed.

Lemma failed_binding_leaves_store_witness :
  snd (Global_call (VRef 9) RW carriers_heap) = carriers_heap.
Proof.
  apply (failed_binding_leaves_store (Global_binding (VRef 9) RW)
           carriers_heap _
           (AssertionError
              "Acess descriptor must be one of [Access('READ'), Access('INC')]")).
  reflexivity.
Defined.

(** *** [as_tuple] *)

Lemma coerce_shape item length :
  coerce item length = VList [] ∨ ∃ l, coerce item length = VTuple l.
Proof.
  unfold coerce. destruct (is_none item); [now left|right].
  destruct (py_iter item); eauto.
Qed.

Lemma as_tuple_inv (σ σ' : heap) (item t : val)
    (type : option pytype) (length : option Z) :
  as_tuple item type length σ = (Ok t, σ') →
  σ' = σ
  ∧ (t = VList [] ∨ ∃ l, t = VTuple l)
  ∧ (∀ n, length = Some n → n ≠ 0 → len t = n)
  ∧ (∀ ty, type = Some ty →
       Forall (λ i, isinstance σ i ty = true) (items_of t)).
Proof.
  intros H.
  assert (σ' = σ) as -> by (now apply preserving_as_tuple in H).
  split; [reflexivity|].
  unfold as_tuple in H.
  apply bind_inv in H as ([] & σ1 & Hlen & H).
  assert (σ1 = σ) as ->.
  { destruct length as [n|]; [destruct (n =? 0)|];
      first [now apply preserving_assert in Hlen
            | now apply preserving_ret in Hlen]. }
  apply bind_inv in H as ([] & σ2 & Hty & [= <- _]).
  split; [apply coerce_shape|]. split.
  - intros n -> Hn. destruct (Z.eqb_spec n 0) as [?|_]; [done|].
    unfold py_assert in Hlen.
    destruct (Z.eqb_spec (len (coerce item (Some n))) n) as [E|_]; [exact E|].
    destruct (fmt1 _ _ _); discriminate.
  - intros ty ->. unfold py_assert in Hty.
    destruct (forallb _ _) eqn:E; [|discriminate].
    apply Forall_forall. intros i Hi.
    rewrite forallb_forall in E. apply E. now apply list_elem_of_In.
Qed.

(** X3: whenever [as_tuple] returns, the store is unchanged and the result
    is the empty list or a tuple; if a length other than 0 was given the
    result has that length, and if a type was given every item of the
    result is an instance of it. *)
Theorem as_tuple_returns (σ σ' : heap) (item t : val)
    (type : option pytype) (length : option Z) :
  as_tuple item type length σ = (Ok t, σ') →
  σ' = σ
  ∧ (t = VList [] ∨ ∃ l, t = VTuple l)
  ∧ (∀ n, length = Some n → n ≠ 0 → len t = n)
  ∧ (∀ ty, type = Some ty →
       Forall (λ i, isinstance σ i ty = true) (items_of t)).
Proof. apply as_tuple_inv. Qed.

Lemma as_tuple_returns_witness :
  [Obj CSet ∅] = [Obj CSet ∅]
  ∧ (VTuple [VRef 0; VRef 0] = VList []
     ∨ ∃ l, VTuple [VRef 0; VRef 0] = VTuple l)
  ∧ (∀ n, Some 2 = Some n → n ≠ 0 → len (VTuple [VRef 0; VRef 0]) = n)
  ∧ (∀ ty, Some (TClass CSet) = Some ty →
       Forall (λ i, isinstance [Obj CSet ∅] i ty = true)
         (items_of (VTuple [VRef 0; VRef 0]))).
Proof.
  apply (as_tuple_returns [Obj CSet ∅] _ (VRef 0) _ (Some (TClass CSet))
           (Some 2)).
  reflexivity.
Defined.

(** X4: without a length, or with the length 0, [as_tuple(None)] is the
    empty list whatever the type, and a scalar that is not iterable gives
    the one-element tuple of it, provided it is an instance of the type when
    one is given: a length of 0 does not give an empty tuple. *)
Theorem as_tuple_without_length (σ : heap) (length : option Z)
    (type : option pytype) :
  length = None ∨ length = Some 0 →
  as_tuple VNone type length σ = (Ok (VList []), σ)
  ∧ (∀ x, x ≠ VNone → py_iter x = None →
       (∀ ty, type = Some ty → isinstance σ x ty = true) →
       as_tuple x type length σ = (Ok (VTuple [x]), σ)).
Proof.
  intros Hl. split.
  - unfold as_tuple. destruct Hl as [-> | ->]; destruct type; reflexivity.
  - intros x Hx Hit Hty. unfold as_tuple, coerce.
    rewrite (is_none_false _ Hx), Hit.
    assert (length_or_1 length = 1) as ->
      by (destruct Hl as [-> | ->]; reflexivity).
    change (replicate (Z.to_nat 1) x) with [x].
    destruct type as [ty|].
    + specialize (Hty ty eq_refl).
      destruct Hl as [-> | ->]; [|change (0 =? 0) with true]; mrun;
        change (forallb _ _) with (isinstance σ x ty && true);
        now rewrite Hty.
    + destruct Hl as [-> | ->]; reflexivity.
Qed.

Lemma as_tuple_without_length_witness :
  as_tuple VNone (Some TInt) (Some 0) [] = (Ok (VList []), [])
  ∧ as_tuple (VInt 5) (Some TInt) (Some 0) [] = (Ok (VTuple [VInt 5]), []).
Proof.
  destruct (as_tuple_without_length [] (Some 0) (Some TInt)) as [Hnone Hx];
    [right; reflexivity|].
  split; [exact Hnone|].
  apply Hx; [discriminate|reflexivity|].
  intros ty [= <-]. reflexivity.
Defined.

(** X5: when [as_tuple] without a type returns a sequence of which some
    item is not an instance of [ty], the same call with the type [ty] fails
    on the assertion about the items. *)
Theorem as_tuple_type_enforced (σ : heap) (item : val) (ty : pytype)
    (length : option Z) (t : val) :
  as_tuple item None length σ = (Ok t, σ) →
  ¬ Forall (λ i, isinstance σ i ty = true) (items_of t) →
  as_tuple item (Some ty) length σ
  = (Raise (AssertionError ("Items need to be of " +:+ type_str ty)), σ).
Proof.
  intros H Hbad. unfold as_tuple in *.
  apply bind_inv in H as ([] & σ1 & Hlen & H).
  assert (σ1 = σ) as ->.
  { destruct length as [n|]; [destruct (n =? 0)|];
      first [now apply preserving_assert in Hlen
            | now apply preserving_ret in Hlen]. }
  injection H as <-.
  rewrite (bind_ok _ _ _ _ _ Hlen). mrun.
  destruct (forallb _ _) eqn:E; [|reflexivity].
  destruct Hbad. apply Forall_forall. intros i Hi.
  rewrite forallb_forall in E. apply E. now apply list_elem_of_In.
Qed.

Lemma as_tuple_type_enforced_witness :
  as_tuple (VList [VInt 1; VStr "x"]) (Some TInt) None []
  = (Raise (AssertionError "Items need to be of <class 'int'>"), [])
  ∧ as_tuple (VList [VInt 1; VStr "x"]) (Some TStr) None []
    = (Raise (AssertionError "Items need to be of <class 'str'>"), [])
  ∧ as_tuple (VList [VRef 4; VRef 6]) (Some (TClass CSet)) (Some 2)
      carriers_heap
    = (Raise (AssertionError "Items need to be of <class 'pyop2.op2.Set'>"),
       carriers_heap).
Proof.
  split; [|split].
  - apply (as_tuple_type_enforced [] (VList [VInt 1; VStr "x"]) TInt None
             (VTuple [VInt 1; VStr "x"])).
    + reflexivity.
    + intros H. apply Forall_cons_1 in H as [_ H].
      apply Forall_cons_1 in H as [H _]. discriminate H.
  - apply (as_tuple_type_enforced [] (VList [VInt 1; VStr "x"]) TStr None
             (VTuple [VInt 1; VStr "x"])).
    + reflexivity.
    + intros H. apply Forall_cons_1 in H as [H _]. discriminate H.
  - apply (as_tuple_type_enforced carriers_heap (VList [VRef 4; VRef 6])
             (TClass CSet) (Some 2) (VTuple [VRef 4; VRef 6])).
    + reflexivity.
    + intros H. apply Forall_cons_1 in H as [_ H].
      apply Forall_cons_1 in H as [H _]. discriminate H.
Defined.

(** *** What the constructors check *)

(** An instance just allocated is not an instance of another class. *)
Lemma isinstance_new σ c d v t :
  (∀ c', t = TClass c' → subclass c c' = false) →
  isinstance (σ ++ [Obj c d]) v t = isinstance σ v t.
Proof.
  intros Hc. destruct t as [| |c'], v; try reflexivity. cbn [isinstance].
  destruct (lt_eq_lt_dec l (length σ)) as [[Hl | ->] | Hl].
  - now rewrite lookup_app_l.
  - unfold loc. rewrite lookup_new, (lookup_ge_None_2 σ (length σ)) by lia.
    cbn [o_cls]. now rewrite (Hc c' eq_refl).
  - rewrite !lookup_ge_None_2; [done|lia|rewrite length_app; simpl; lia].
Qed.

Ltac new_class := intros ? [= <-]; reflexivity.
Ltac new_other := intros ? [=].

(** X6: [Map(frm, to, dim, values, name)] returns exactly when [frm] and
    [to] are Sets and [name] is a string; it then returns a new object with
    the five arguments as its fields and no index.  Neither [dim] nor
    [values] is looked at. *)
Theorem new_Map_spec (σ σ' : heap) (frm to dim values name r : val) :
  new_Map frm to dim values name σ = (Ok r, σ')
  ↔ isinstance σ frm (TClass CSet) = true
    ∧ isinstance σ to (TClass CSet) = true
    ∧ isinstance σ name TStr = true
    ∧ r = VRef (length σ)
    ∧ σ' = σ ++ [Obj CMap (Map_fields frm to dim values name VNone)].
Proof.
  split.
  - unfold new_Map, Map_init. mrun.
    rewrite !isinstance_new by first [new_class | new_other].
    destruct (isinstance σ frm _); [|discriminate]. mrun.
    rewrite !isinstance_new by first [new_class | new_other].
    destruct (isinstance σ to _); [|discriminate]. mrun.
    rewrite !isinstance_new by first [new_class | new_other].
    destruct (isinstance σ name _); [|discriminate]. mrun.
    rewrite !setattr_new. mrun. now intros [= <- <-].
  - intros (Hf & Ht & Hn & -> & ->). now apply new_Map_ok.
Qed.

(** X7: [Dat(set, dim, datatype, data, name)] returns exactly when [set] is
    a Set and [name] is a string; it then returns a new object with the five
    arguments as its fields and neither a map nor an access. *)
Theorem new_Dat_spec (σ σ' : heap) (set dim datatype data name r : val) :
  new_Dat set dim datatype data name σ = (Ok r, σ')
  ↔ isinstance σ set (TClass CSet) = true
    ∧ isinstance σ name TStr = true
    ∧ r = VRef (length σ)
    ∧ σ' = σ ++ [Obj CDat (Dat_fields set dim datatype data name
                             VNone VNone)].
Proof.
  split.
  - unfold new_Dat, Dat_init. mrun.
    rewrite !isinstance_new by first [new_class | new_other].
    destruct (isinstance σ set _); [|discriminate]. mrun.
    rewrite !isinstance_new by first [new_class | new_other].
    destruct (isinstance σ name _); [|discriminate]. mrun.
    rewrite !setattr_new. mrun. now intros [= <- <-].
  - intros (Hs & Hn & -> & ->). now apply new_Dat_ok.
Qed.

(** X10: [Global(name, val)] returns exactly when [name] is a string, and
    then returns a new unbound Global; [val()] on it gives back [val], and so
    does [val()] on every copy that binding it returns. *)
Theorem new_Global_spec (σ σ' : heap) (name val_ r : val) :
  (new_Global name val_ σ = (Ok r, σ')
   ↔ isinstance σ name TStr = true
     ∧ r = VRef (length σ)
     ∧ σ' = σ ++ [Obj CGlobal (Global_fields val_ name VNone)])
  ∧ (new_Global name val_ σ = (Ok r, σ') →
     Global_val r σ' = (Ok val_, σ')
     ∧ ∀ a b τ, Global_call r a σ' = (Ok b, τ) →
                Global_val b τ = (Ok val_, τ)).
Proof.
  assert (new_Global name val_ σ = (Ok r, σ')
   ↔ isinstance σ name TStr = true
     ∧ r = VRef (length σ)
     ∧ σ' = σ ++ [Obj CGlobal (Global_fields val_ name VNone)]) as Hiff.
  { split.
    - unfold new_Global, Global_init. mrun.
      rewrite !isinstance_new by first [new_class | new_other].
      destruct (isinstance σ name _); [|discriminate]. mrun.
      rewrite !setattr_new. mrun. now intros [= <- <-].
    - intros (Hn & -> & ->). now apply new_Global_ok. }
  split; [exact Hiff|].
  intros H. apply Hiff in H as (Hn & -> & ->).
  assert ((σ ++ [Obj CGlobal (Global_fields val_ name VNone)]) !! length σ
          = Some (Obj CGlobal (Global_fields val_ name VNone))) as Hg
    by apply lookup_new.
  split.
  - unfold Global_val. mrun.
    now erewrite getattr_field; [|exact Hg|reflexivity].
  - intros a b τ Hcall. unfold Global_call in Hcall.
    apply bind_preserving_inv in Hcall as [_ Hcall];
      [|apply preserving_assert_access].
    rewrite (bind_ok _ _ _ _ _ (copy_object _ _ _ Hg)) in Hcall.
    revert Hcall. mrun. rewrite setattr_new. intros [= <- <-].
    unfold Global_val. mrun.
    now erewrite getattr_field; [|apply lookup_new|reflexivity].
Qed.

Lemma new_Global_spec_witness :
  Global_val (VRef 0) [Obj CGlobal (Global_fields (VInt 7) (VStr "g") VNone)]
  = (Ok (VInt 7), [Obj CGlobal (Global_fields (VInt 7) (VStr "g") VNone)]).
Proof.
  destruct (new_Global_spec [] [Obj CGlobal (Global_fields (VInt 7) (VStr "g")
                                              VNone)]
              (VStr "g") (VInt 7) (VRef 0)) as [_ H].
  apply H. reflexivity.
Defined.

(** X11: [Const(dim, datatype, value, name)] returns exactly when [name]
    is a string, and the new object's access is the module's READ. *)
Theorem new_Const_spec (σ σ' : heap) (dim datatype value name r : val) :
  new_Const dim datatype value name σ = (Ok r, σ')
  ↔ isinstance σ name TStr = true
    ∧ r = VRef (length σ)
    ∧ σ' = σ ++ [Obj CConst (Const_fields dim datatype value name READ)].
Proof.
  split.
  - unfold new_Const, Const_init. mrun.
    rewrite !isinstance_new by first [new_class | new_other].
    destruct (isinstance σ name _); [|discriminate]. mrun.
    rewrite !setattr_new. mrun. now intros [= <- <-].
  - intros (Hn & -> & ->). unfold new_Const, Const_init. mrun.
    rewrite (isinstance_mono _ _ _ _ Hn). mrun.
    rewrite !setattr_new. now mrun.
Qed.

(** X12: [Kernel(name, code)] and [ParLoop(kernel, it_space, *args)] check
    nothing: for all arguments they return a new object that stores them as
    given, the extra arguments of a ParLoop as a tuple. *)
Theorem records_are_not_validated (σ : heap) (name code kernel it_space : val)
    (args : list val) :
  new_Kernel name code σ
  = (Ok (VRef (length σ)), σ ++ [Obj CKernel (Kernel_fields name code)])
  ∧ new_ParLoop kernel it_space args σ
    = (Ok (VRef (length σ)),
       σ ++ [Obj CParLoop (ParLoop_fields kernel it_space (VTuple args))]).
Proof.
  split.
  - unfold new_Kernel, Kernel_init. mrun. rewrite !setattr_new. now mrun.
  - unfold new_ParLoop, ParLoop_init. mrun. rewrite !setattr_new. now mrun.
Qed.

Lemma forallb_isinstance_int σ τ l :
  forallb (λ i, isinstance σ i TInt) l = forallb (λ i, isinstance τ i TInt) l.
Proof.
  induction l as [|i l IH]; [reflexivity|]. cbn [forallb].
  now rewrite IH, (isinstance_int_heap σ τ).
Qed.

Lemma new_IterationSpace_iff (σ σ' : heap) (set dims r : val) :
  new_IterationSpace set dims σ = (Ok r, σ')
  ↔ isinstance σ set (TClass CSet) = true
    ∧ forallb (λ i, isinstance σ i TInt) (items_of (coerce dims None)) = true
    ∧ r = VRef (length σ)
    ∧ σ' = σ ++ [Obj CIterationSpace
                   (IterationSpace_fields set (coerce dims None))].
Proof.
  unfold new_IterationSpace, IterationSpace_init. mrun.
  rewrite !isinstance_new by first [new_class | new_other].
  destruct (isinstance σ set _); [|split; [discriminate|now intros [[=] _]]].
  mrun. rewrite setattr_new. mrun. unfold as_tuple. mrun.
  rewrite (forallb_isinstance_int _ σ).
  destruct (forallb _ _);
    [|split; [discriminate|now intros (_ & [=] & _)]].
  mrun. rewrite setattr_new.
  split; [now intros [= <- <-]|now intros (_ & _ & -> & ->)].
Qed.

(** X13: [IterationSpace(set, dims)] returns exactly when [set] is a Set
    and every item of the sequence built from [dims] (its items, [(dims,)]
    for a scalar, nothing for [None]) is an [int]; the new object then has
    [set] and that sequence as its fields. *)
Theorem new_IterationSpace_spec (σ σ' : heap) (set dims r : val) :
  new_IterationSpace set dims σ = (Ok r, σ')
  ↔ isinstance σ set (TClass CSet) = true
    ∧ forallb (λ i, isinstance σ i TInt) (items_of (coerce dims None)) = true
    ∧ r = VRef (length σ)
    ∧ σ' = σ ++ [Obj CIterationSpace
                   (IterationSpace_fields set (coerce dims None))].
Proof. apply new_IterationSpace_iff. Qed.

Lemma as_tuple_result item type length σ t σ' :
  as_tuple item type length σ = (Ok t, σ') → t = coerce item length.
Proof.
  unfold as_tuple. intros H.
  apply bind_inv in H as ([] & σ1 & _ & H).
  now apply bind_inv in H as ([] & σ2 & _ & [= <- _]).
Qed.

Lemma new_Mat_iff (σ σ' : heap) (sets dim datatype name r : val) :
  new_Mat sets dim datatype name σ = (Ok r, σ')
  ↔ isinstance σ name TStr = true
    ∧ ∃ s1 s2,
        coerce sets (Some 2) = VTuple [s1; s2]
        ∧ isinstance σ s1 (TClass CSet) = true
        ∧ isinstance σ s2 (TClass CSet) = true
        ∧ r = VRef (length σ)
        ∧ σ' = σ ++ [Obj CMat (Mat_fields (VTuple [s1; s2]) dim datatype
                                 name VNone VNone)].
Proof.
  split.
  - unfold new_Mat, Mat_init. mrun.
    rewrite !isinstance_new by first [new_class | new_other].
    destruct (isinstance σ name _); [|discriminate]. mrun.
    destruct (as_tuple _ _ _ _) as [[t|e] σ1] eqn:Ht; [|discriminate].
    pose proof (as_tuple_result _ _ _ _ _ _ Ht) as Hc.
    apply as_tuple_inv in Ht as (-> & Hshape & Hlen & Hty).
    specialize (Hlen 2 eq_refl ltac:(lia)).
    specialize (Hty _ eq_refl).
    rewrite !setattr_new. mrun. intros [= <- <-]. split; [reflexivity|].
    destruct Hshape as [-> | [l ->]]; [discriminate Hlen|].
    destruct l as [|s1 [|s2 [|]]];
      try (unfold len, items_of in Hlen; simpl in Hlen; lia).
    apply Forall_cons_1 in Hty as [H1 Hty].
    apply Forall_cons_1 in Hty as [H2 _].
    rewrite isinstance_new in H1, H2 by new_class.
    exists s1, s2. now repeat split.
  - intros (Hn & s1 & s2 & Hc & H1 & H2 & -> & ->).
    unfold new_Mat, Mat_init. mrun.
    rewrite (isinstance_mono _ _ _ _ Hn). mrun.
    unfold as_tuple. rewrite Hc.
    change (2 =? 0) with false. change (len _ =? 2) with true. mrun.
    change (forallb _ _)
      with (isinstance (σ ++ [Obj CMat ∅]) s1 (TClass CSet)
            && (isinstance (σ ++ [Obj CMat ∅]) s2 (TClass CSet) && true)).
    rewrite (isinstance_mono _ _ _ _ H1), (isinstance_mono _ _ _ _ H2).
    cbn [andb]. mrun. rewrite !setattr_new. now mrun.
Qed.

(** X8: [Mat(sets, dim, datatype, name)] returns exactly when [name] is a
    string and the sequence built from [sets] for the length 2 is a pair of
    Sets; the new object then has that pair as its sets and neither maps nor
    an access.  Every Mat is thus declared on exactly two Sets. *)
Theorem new_Mat_spec (σ σ' : heap) (sets dim datatype name r : val) :
  new_Mat sets dim datatype name σ = (Ok r, σ')
  ↔ isinstance σ name TStr = true
    ∧ ∃ s1 s2,
        coerce sets (Some 2) = VTuple [s1; s2]
        ∧ isinstance σ s1 (TClass CSet) = true
        ∧ isinstance σ s2 (TClass CSet) = true
        ∧ r = VRef (length σ)
        ∧ σ' = σ ++ [Obj CMat (Mat_fields (VTuple [s1; s2]) dim datatype
                                 name VNone VNone)].
Proof. apply new_Mat_iff. Qed.

(** X9: a single Set given as [sets] stands for the pair of it with
    itself. *)
Theorem new_Mat_of_one_Set (σ : heap) (s : loc) (dim datatype name : val) :
  isinstance σ (VRef s) (TClass CSet) = true →
  isinstance σ name TStr = true →
  new_Mat (VRef s) dim datatype name σ
  = (Ok (VRef (length σ)),
     σ ++ [Obj CMat (Mat_fields (VTuple [VRef s; VRef s]) dim datatype name
                       VNone VNone)]).
Proof.
  intros Hs Hn. apply new_Mat_iff. split; [exact Hn|].
  exists (VRef s), (VRef s). now repeat split.
Qed.

Lemma new_Mat_of_one_Set_witness :
  new_Mat (VRef 4) (VInt 1) (VStr "double") (VStr "mat") carriers_heap
  = (Ok (VRef 12),
     carriers_heap ++ [Obj CMat (Mat_fields (VTuple [VRef 4; VRef 4]) (VInt 1)
                                   (VStr "double") (VStr "mat") VNone VNone)]).
Proof.
  apply (new_Mat_of_one_Set carriers_heap 4%nat); reflexivity.
Defined.

(** *** Indexing a Map once *)

Lemma Map_indexed_ok σ m frm to dim values name i :
  is_Map σ m frm to (VInt dim) values name VNone → 0 ≤ i < dim →
  Map_indexed (VRef m) (VInt i) σ
  = (Ok (VRef (length σ)),
     σ ++ [Obj CMap (Map_fields frm to (VInt dim) values name (VInt i))]).
Proof.
  intros Hm Hi. unfold Map_indexed. mrun.
  erewrite getattr_field; [|exact Hm|reflexivity]. mrun.
  destruct (Z.leb_spec 0 i); [|lia]. mrun.
  erewrite getattr_field; [|exact Hm|reflexivity]. mrun.
  destruct (Z.ltb_spec i dim); [|lia]. mrun.
  rewrite (copy_object _ _ _ Hm). mrun.
  rewrite setattr_new. mrun.
  unfold Map_fields. now rewrite insert_insert_eq.
Qed.

Lemma Map_indexed_again σ m frm to dim values name current index :
  is_Map σ m frm to dim values name current → current ≠ VNone →
  Map_indexed (VRef m) index σ
  = (Raise (AssertionError "Map has already been indexed"), σ).
Proof.
  intros Hm Hc. unfold Map_indexed. mrun.
  erewrite getattr_field; [|exact Hm|reflexivity]. mrun.
  now rewrite (is_none_false _ Hc).
Qed.

(** X14: after [m1 = m.indexed(i)] on an unindexed Map, with [i] in range
    (0 included), every further [m1.indexed(j)] and every call [m1(j)]
    fails, whatever [j] is, while [m] itself can be indexed again and gives
    one more new object. *)
Theorem Map_indexed_only_once (σ : heap) (m : loc)
    (frm to values name : val) (dim i : Z) :
  is_Map σ m frm to (VInt dim) values name VNone → 0 ≤ i < dim →
  ∃ σ1,
    Map_indexed (VRef m) (VInt i) σ = (Ok (VRef (length σ)), σ1)
    ∧ (∀ j, Map_indexed (VRef (length σ)) j σ1
            = (Raise (AssertionError "Map has already been indexed"), σ1))
    ∧ (∀ j, ∃ msg, Map_call (VRef (length σ)) j σ1
                   = (Raise (AssertionError msg), σ1))
    ∧ (∀ i', 0 ≤ i' < dim →
         ∃ σ2, Map_indexed (VRef m) (VInt i') σ1
               = (Ok (VRef (S (length σ))), σ2)).
Proof.
  intros Hm Hi.
  exists (σ ++ [Obj CMap (Map_fields frm to (VInt dim) values name (VInt i))]).
  split; [now apply Map_indexed_ok|].
  assert (∀ j, Map_indexed (VRef (length σ)) j
                 (σ ++ [Obj CMap (Map_fields frm to (VInt dim) values name
                                    (VInt i))])
               = (Raise (AssertionError "Map has already been indexed"),
                  σ ++ [Obj CMap (Map_fields frm to (VInt dim) values name
                                    (VInt i))])) as Hagain.
  { intros j. eapply Map_indexed_again; [apply lookup_new|discriminate]. }
  split; [exact Hagain|]. split.
  - intros j. unfold Map_call. mrun.
    destruct (isinstance _ j TInt); mrun; [|eauto].
    rewrite Hagain. eauto.
  - intros i' Hi'. eexists.
    rewrite (Map_indexed_ok _ m frm to dim values name i');
      [|now apply lookup_app_l_Some|exact Hi'].
    rewrite length_app. cbn [length]. now rewrite Nat.add_1_r.
Qed.

Lemma Map_indexed_only_once_witness :
  ∃ σ1,
    Map_indexed (VRef 10) (VInt 0) carriers_heap = (Ok (VRef 12), σ1)
    ∧ (∀ j, Map_indexed (VRef 12) j σ1
            = (Raise (AssertionError "Map has already been indexed"), σ1))
    ∧ (∀ j, ∃ msg, Map_call (VRef 12) j σ1
                   = (Raise (AssertionError msg), σ1))
    ∧ (∀ i', 0 ≤ i' < 3 →
         ∃ σ2, Map_indexed (VRef 10) (VInt i') σ1 = (Ok (VRef 13), σ2)).
Proof.
  apply (Map_indexed_only_once carriers_heap 10%nat (VRef 4) (VRef 4) VNone
           (VStr "m3") 3 0); [reflexivity|lia].
Defined.

(** *** Binding a Global more than once *)

Lemma Global_call_ok σ g val_ name current a :
  is_Global σ g val_ name current → a = READ ∨ a = INC →
  Global_call (VRef g) a σ
  = (Ok (VRef (length σ)), σ ++ [Obj CGlobal (Global_fields val_ name a)]).
Proof.
  intros Hg Ha. unfold Global_call.
  erewrite bind_ok; [|eapply assert_access_ok; [exact Hg|reflexivity..|]].
  2:{ destruct Ha as [-> | ->]; reflexivity. }
  rewrite (bind_ok _ _ _ _ _ (copy_object _ _ _ Hg)).
  mrun. rewrite setattr_new. unfold Global_fields.
  now rewrite insert_insert_eq.
Qed.

(** X15: [Global.__call__] does not look at an earlier binding: the copy
    that binding an unbound Global to READ or INC returns can be bound again
    to READ or INC; afterwards the store holds the unbound Global, the first
    copy with the first mode and the second copy with the second mode. *)
Theorem Global_rebinding (σ : heap) (g : loc) (val_ name a b : val) :
  is_Global σ g val_ name VNone →
  a = READ ∨ a = INC → b = READ ∨ b = INC →
  ∃ σ1 σ2,
    Global_call (VRef g) a σ = (Ok (VRef (length σ)), σ1)
    ∧ Global_call (VRef (length σ)) b σ1 = (Ok (VRef (S (length σ))), σ2)
    ∧ is_Global σ2 g val_ name VNone
    ∧ is_Global σ2 (length σ) val_ name a
    ∧ is_Global σ2 (S (length σ)) val_ name b.
Proof.
  intros Hg Ha Hb.
  exists (σ ++ [Obj CGlobal (Global_fields val_ name a)]),
    ((σ ++ [Obj CGlobal (Global_fields val_ name a)])
     ++ [Obj CGlobal (Global_fields val_ name b)]).
  split; [now apply (Global_call_ok σ g val_ name VNone a)|].
  split.
  - rewrite (Global_call_ok _ (length σ) val_ name a b);
      [|apply lookup_new|exact Hb].
    rewrite length_app. cbn [length]. now rewrite Nat.add_1_r.
  - unfold is_Global. repeat split.
    + now apply lookup_app_l_Some, lookup_app_l_Some.
    + apply lookup_app_l_Some, lookup_new.
    + replace (S (length σ))
        with (length (σ ++ [Obj CGlobal (Global_fields val_ name a)]))
        by (rewrite length_app; cbn [length]; lia).
      apply lookup_new.
Qed.

Lemma Global_rebinding_witness :
  ∃ σ1 σ2,
    Global_call (VRef 9) READ carriers_heap = (Ok (VRef 12), σ1)
    ∧ Global_call (VRef 12) INC σ1 = (Ok (VRef 13), σ2)
    ∧ is_Global σ2 9%nat (VInt 0) (VStr "g") VNone
    ∧ is_Global σ2 12%nat (VInt 0) (VStr "g") READ
    ∧ is_Global σ2 13%nat (VInt 0) (VStr "g") INC.
Proof.
  apply (Global_rebinding carriers_heap 9%nat (VInt 0) (VStr "g") READ INC);
    [reflexivity|left; reflexivity|right; reflexivity].
Defined.

(** *** Access descriptors are compared by identity *)

Lemma py_eq_ref a l : py_eq a (VRef l) = true → a = VRef l.
Proof.
  destruct a; simpl; try discriminate.
  intros H. apply Nat.eqb_eq in H. now subst.
Qed.

Lemma py_eq_ref_false a l : a ≠ VRef l → py_eq a (VRef l) = false.
Proof.
  intros Ha. destruct (py_eq a (VRef l)) eqn:E; [|reflexivity].
  now apply py_eq_ref in E.
Qed.

Lemma py_in_not_canonical σ a :
  ¬ canonical a → py_in σ a (VList [READ; WRITE; RW; INC]) = Ok false.
Proof.
  intros Ha. unfold py_in, canonical, READ, WRITE, RW, INC in *.
  cbn [existsb]. rewrite !py_eq_ref_false; [reflexivity|..]; intros ->; tauto.
Qed.

Lemma access_message_Dat σ :
  imported σ →
  fmt1 "Acess descriptor must be one of %s" (VList [READ; WRITE; RW; INC]) σ
  = Ok "Acess descriptor must be one of [Access('READ'), Access('WRITE'), Access('RW'), Access('INC')]".
Proof. intros [τ ->]. reflexivity. Qed.

Lemma assert_access_fails σ l c d a modes msg :
  σ !! l = Some (Obj c d) → d !! "_modes" = None →
  class_attr c "_modes" = Some modes → py_in σ a modes = Ok false →
  fmt1 "Acess descriptor must be one of %s" modes σ = Ok msg →
  assert_access (VRef l) a σ = (Raise (AssertionError msg), σ).
Proof.
  intros Hl Hd Hc Hin Hmsg. unfold assert_access. mrun.
  erewrite getattr_class by eassumption. mrun. rewrite Hin. mrun.
  now rewrite Hmsg.
Qed.

(** X16: the three binding operations test the access first, and by
    identity: with a value that is not one of the descriptor objects the
    class lists, such as the string READ, a Dat, a Mat and a Global fail on
    the assertion about the access descriptor, whatever is passed as map or
    maps. *)
Theorem noncanonical_access_rejected (σ : heap) (d mat g : loc)
    (set dim datatype data name sets mdim mdatatype mname : val)
    (val_ gname current a x : val) :
  imported σ →
  (is_Dat σ d set dim datatype data name → ¬ canonical a →
   Dat_call (VRef d) x a σ
   = (Raise (AssertionError
        "Acess descriptor must be one of [Access('READ'), Access('WRITE'), Access('RW'), Access('INC')]"),
      σ))
  ∧ (is_Mat σ mat sets mdim mdatatype mname → ¬ canonical a →
     Mat_call (VRef mat) x a σ
     = (Raise (AssertionError
          "Acess descriptor must be one of [Access('READ'), Access('WRITE'), Access('RW'), Access('INC')]"),
        σ))
  ∧ (is_Global σ g val_ gname current → a ≠ READ → a ≠ INC →
     Global_call (VRef g) a σ
     = (Raise (AssertionError
          "Acess descriptor must be one of [Access('READ'), Access('INC')]"),
        σ)).
Proof.
  intros Himp. split; [|split].
  - intros Hd Ha. unfold Dat_call. apply bind_raise.
    eapply assert_access_fails;
      [exact Hd|reflexivity..|now apply py_in_not_canonical
      |now apply access_message_Dat].
  - intros Hm Ha. unfold Mat_call. apply bind_raise.
    eapply assert_access_fails;
      [exact Hm|reflexivity..|now apply py_in_not_canonical
      |now apply access_message_Dat].
  - intros Hg Hr Hi. unfold Global_call. apply bind_raise.
    eapply assert_access_fails;
      [exact Hg|reflexivity..| |now apply access_message_Global].
    unfold py_in, READ, INC in *. cbn [existsb].
    now rewrite !py_eq_ref_false.
Qed.

Lemma noncanonical_access_rejected_witness :
  Dat_call (VRef 7) VNone (VStr "READ") carriers_heap
  = (Raise (AssertionError
       "Acess descriptor must be one of [Access('READ'), Access('WRITE'), Access('RW'), Access('INC')]"),
     carriers_heap)
  ∧ Mat_call (VRef 8) VNone (VStr "READ") carriers_heap
    = (Raise (AssertionError
         "Acess descriptor must be one of [Access('READ'), Access('WRITE'), Access('RW'), Access('INC')]"),
       carriers_heap)
  ∧ Global_call (VRef 9) (VStr "READ") carriers_heap
    = (Raise (AssertionError
         "Acess descriptor must be one of [Access('READ'), Access('INC')]"),
       carriers_heap).
Proof.
  destruct (noncanonical_access_rejected carriers_heap 7%nat 8%nat 9%nat
              (VRef 4) (VInt 1) (VStr "double") VNone (VStr "d")
              (VTuple [VRef 4; VRef 4]) (VInt 1) (VStr "double") (VStr "mat")
              (VInt 0) (VStr "g") VNone (VStr "READ") VNone)
    as (HD & HM & HG); [eexists; reflexivity|].
  split; [|split].
  - apply HD; [reflexivity|]. intros [H|[H|[H|H]]]; discriminate H.
  - apply HM; [reflexivity|]. intros [H|[H|[H|H]]]; discriminate H.
  - apply HG; [reflexivity|discriminate|discriminate].
Defined.

Lemma imported_length σ : imported σ → (4 ≤ length σ)%nat.
Proof.
  intros [τ ->]. rewrite length_app.
  change (length op2_heap) with 4%nat. lia.
Qed.

Lemma construct_returns c init σ r σ' :
  construct c init σ = (Ok r, σ') → r = VRef (length σ).
Proof.
  unfold construct. intros H.
  apply bind_inv in H as (self & σ1 & [= <- <-] & H).
  now apply bind_inv in H as ([] & σ2 & _ & [= <- _]).
Qed.

(** X17: an Access constructed after the import, whatever its mode
    string, is none of the four module-level descriptors, and binding a
    Global to it fails on the assertion about the access descriptor. *)
Theorem fresh_Access_rejected (σ σ' : heap) (g : loc)
    (val_ name current mode a : val) :
  imported σ → is_Global σ g val_ name current →
  new_Access mode σ = (Ok a, σ') →
  ¬ canonical a
  ∧ Global_call (VRef g) a σ'
    = (Raise (AssertionError
         "Acess descriptor must be one of [Access('READ'), Access('INC')]"),
       σ').
Proof.
  intros Himp Hg Hnew.
  pose proof (construct_returns _ _ _ _ _ Hnew) as ->.
  pose proof (imported_length _ Himp) as Hlen.
  assert (∃ τ, σ' = σ ++ τ) as [τ ->].
  { revert Hnew. apply growing_construct. intros σ0.
    unfold Access_init, attr, pure. init_steps. }
  assert (¬ canonical (VRef (length σ))) as Hnc.
  { unfold canonical, READ, WRITE, RW, INC.
    intros [H|[H|[H|H]]]; injection H as H; lia. }
  split; [exact Hnc|].
  unfold Global_call. apply bind_raise.
  eapply assert_access_fails;
    [apply lookup_app_l_Some; exact Hg|reflexivity..| |].
  - unfold py_in, READ, INC. cbn [existsb].
    rewrite !py_eq_ref_false; [reflexivity|..]; intros [= H]; lia.
  - apply access_message_Global. destruct Himp as [τ0 ->].
    exists (τ0 ++ τ). now rewrite app_assoc.
Qed.

Lemma fresh_Access_rejected_witness :
  ¬ canonical (VRef 12)
  ∧ Global_call (VRef 9) (VRef 12)
      (carriers_heap ++ [Obj CAccess (Access_fields (VStr "READ"))])
    = (Raise (AssertionError
         "Acess descriptor must be one of [Access('READ'), Access('INC')]"),
       carriers_heap ++ [Obj CAccess (Access_fields (VStr "READ"))]).
Proof.
  apply (fresh_Access_rejected carriers_heap _ 9%nat (VInt 0) (VStr "g") VNone
           (VStr "READ") (VRef 12));
    [eexists; reflexivity|reflexivity|reflexivity].
Defined.

(** *** What [Dat.__call__] compares *)

Lemma mismatch_message σ mn xn sn :
  fmt "Invalid data set for map %s (is %s, should be %s)"
    [VStr mn; VStr xn; VStr sn] σ
  = Ok ("Invalid data set for map " +:+ mn +:+ " (is " +:+ xn
        +:+ ", should be " +:+ sn +:+ ")").
Proof. reflexivity. Qed.

(** X18: [Dat.__call__] compares the [_set] attribute of its map argument
    with the Dat's Set.  With a canonical mode and an argument whose [_set]
    is that Set (another Dat on it, for instance) it returns a copy of the
    Dat carrying the argument and the mode; when the [_set] is another
    object, and the argument and the two sets have strings as names, it
    fails on the assertion that names the three. *)
Theorem Dat_call_compares_set_attribute (σ : heap) (d : loc)
    (set dim datatype data name map x a : val) :
  is_Dat σ d set dim datatype data name →
  canonical a →
  getattr σ map "_set" = Ok x →
  (py_eq x set = true →
   Dat_call (VRef d) map a σ
   = (Ok (VRef (length σ)),
      σ ++ [Obj CDat (Dat_fields set dim datatype data name map a)]))
  ∧ (py_eq x set = false →
     ∀ mn xn sn,
       getattr σ map "_name" = Ok (VStr mn) →
       getattr σ x "_name" = Ok (VStr xn) →
       getattr σ set "_name" = Ok (VStr sn) →
       Dat_call (VRef d) map a σ
       = (Raise (AssertionError
            ("Invalid data set for map " +:+ mn +:+ " (is " +:+ xn
             +:+ ", should be " +:+ sn +:+ ")")), σ)).
Proof.
  intros Hd Ha Hx.
  assert (assert_access (VRef d) a σ = (Ok (), σ)) as Hacc.
  { eapply assert_access_ok;
      [exact Hd|reflexivity..|now apply py_in_canonical]. }
  split.
  - intros Heq. unfold Dat_call. rewrite (bind_ok _ _ _ _ _ Hacc).
    mrun. rewrite Hx. mrun.
    erewrite getattr_field; [|exact Hd|reflexivity]. mrun.
    rewrite Heq. mrun. rewrite (copy_object _ _ _ Hd). mrun.
    rewrite !setattr_new. mrun. unfold Dat_fields.
    rewrite (insert_insert_ne _ "_access" "_map") by done.
    rewrite insert_insert_eq.
    rewrite (insert_insert_ne _ "_map" "_access") by done.
    now rewrite insert_insert_eq.
  - intros Hne mn xn sn Hmn Hxn Hsn.
    unfold Dat_call. rewrite (bind_ok _ _ _ _ _ Hacc).
    mrun. rewrite Hx. mrun.
    erewrite getattr_field; [|exact Hd|reflexivity]. mrun.
    rewrite Hne. mrun. rewrite Hmn. mrun. rewrite Hxn. mrun.
    rewrite Hsn. mrun. now rewrite mismatch_message.
Qed.

Lemma Dat_call_compares_set_attribute_witness :
  Dat_call (VRef 7) (VRef 7) READ carriers_heap
  = (Ok (VRef 12),
     carriers_heap ++ [Obj CDat (Dat_fields (VRef 4) (VInt 1) (VStr "double")
                                   VNone (VStr "d") (VRef 7) READ)])
  ∧ Dat_call (VRef 7) (VRef 12) READ
      (carriers_heap ++ [Obj CDat (Dat_fields (VRef 5) (VInt 1)
                                     (VStr "double") VNone (VStr "e")
                                     VNone VNone)])
    = (Raise (AssertionError
         "Invalid data set for map e (is nodes, should be elems)"),
       carriers_heap ++ [Obj CDat (Dat_fields (VRef 5) (VInt 1)
                                     (VStr "double") VNone (VStr "e")
                                     VNone VNone)]).
Proof.
  split.
  - destruct (Dat_call_compares_set_attribute carriers_heap 7%nat (VRef 4)
                (VInt 1) (VStr "double") VNone (VStr "d") (VRef 7) (VRef 4)
                READ) as [Hok _];
      [reflexivity|left; reflexivity|reflexivity|].
    apply Hok. reflexivity.
  - destruct (Dat_call_compares_set_attribute
                (carriers_heap ++ [Obj CDat (Dat_fields (VRef 5) (VInt 1)
                                               (VStr "double") VNone
                                               (VStr "e") VNone VNone)])
                7%nat (VRef 4) (VInt 1) (VStr "double") VNone (VStr "d")
                (VRef 12) (VRef 5) READ) as [_ Hbad];
      [reflexivity|left; reflexivity|reflexivity|].
    apply (Hbad eq_refl "e" "nodes" "elems"); reflexivity.
Defined.

(** *** Constructors return new objects *)

Lemma construct_new c init σ r σ' :
  (∀ τ, initialising τ (init (VRef (length τ)))) →
  construct c init σ = (Ok r, σ') →
  r = VRef (length σ) ∧ ∃ o, σ' = σ ++ [o].
Proof.
  intros Hinit H. split; [now apply construct_returns in H|].
  unfold construct in H.
  apply bind_inv in H as (self & σ1 & [= <- <-] & H).
  apply bind_inv in H as ([] & σ2 & H & [= _ <-]).
  now apply Hinit in H.
Qed.

(** X19: each of the ten constructors, when it returns, returns an object
    that the store did not hold and adds just that object to the store; the
    new object is equal ([==]) to no object that existed, even one built
    from the same arguments. *)
Theorem constructors_return_new_objects (c : call) (σ σ' : heap) (r : val) :
  is_constructor c = true →
  run_call c σ = (Ok r, σ') →
  r = VRef (length σ)
  ∧ σ !! length σ = None
  ∧ (∃ o, σ' = σ ++ [o])
  ∧ ∀ l, is_Some (σ !! l) → py_eq r (VRef l) = false.
Proof.
  intros Hc H.
  assert (r = VRef (length σ) ∧ ∃ o, σ' = σ ++ [o]) as [-> Ho].
  { destruct c; try discriminate Hc; cbn [run_call] in H;
      revert H; apply construct_new; intros τ.
    - unfold Access_init, attr, pure. init_steps.
    - unfold IterationSpace_init. init_steps.
    - unfold Kernel_init. init_steps.
    - unfold Set_init. init_steps.
    - unfold Dat_init. init_steps.
    - unfold Mat_init. init_steps.
    - unfold Const_init. init_steps.
    - unfold Global_init. init_steps.
    - unfold Map_init. init_steps.
    - unfold ParLoop_init. init_steps. }
  repeat split; [now apply lookup_ge_None_2|exact Ho|].
  intros l Hl. apply lookup_lt_is_Some in Hl.
  cbn [py_eq]. apply Nat.eqb_neq. lia.
Qed.

Lemma constructors_return_new_objects_witness :
  VRef 12 = VRef (length carriers_heap)
  ∧ carriers_heap !! length carriers_heap = None
  ∧ (∃ o, snd (new_Set (VInt 10) (VStr "elems") carriers_heap)
          = carriers_heap ++ [o])
  ∧ ∀ l, is_Some (carriers_heap !! l) → py_eq (VRef 12) (VRef l) = false.
Proof.
  apply (constructors_return_new_objects
           (Call_Set (VInt 10) (VStr "elems")) carriers_heap);
    reflexivity.
Defined.

(** *** Renderings *)

Lemma append_cons c a b : String c a +:+ b = String c (a +:+ b).
Proof. reflexivity. Qed.

Lemma append_nil_l (a : string) : "" +:+ a = a.
Proof. reflexivity. Qed.

Lemma append_assoc (a b c : string) : (a +:+ b) +:+ c = a +:+ (b +:+ c).
Proof.
  induction a as [|x a IH]; [reflexivity|].
  rewrite !append_cons. now rewrite IH.
Qed.

(** Runs the formatting operator on a literal format. *)
Ltac format_run := cbv [format format1 rbind Ascii.eqb Bool.eqb andb].

(** Brings both sides of an equation between texts to one shape. *)
Ltac norm_text :=
  repeat first [rewrite append_cons | rewrite append_nil_l
               | rewrite append_assoc | rewrite append_nil_r].

Lemma py_str_Set n σ l name size :
  is_Set σ l (VInt size) (VStr name) →
  py_str (S (S (S n))) σ (VRef l) = Ok (Set_text name size).
Proof.
  intros H. unfold is_Set in H. cbn [py_str]. rewrite H. cbn [o_cls instance_str].
  unfold Set_str. do 2 (erewrite getattr_field; [|exact H|reflexivity]).
  cbn [rbind]. format_run. unfold Set_text. f_equal; norm_text; reflexivity.
Qed.

Lemma py_repr_Set n σ l name size :
  is_Set σ l (VInt size) (VStr name) →
  py_repr (S (S (S n))) σ (VRef l) = Ok (Set_repr_text name size).
Proof.
  intros H. unfold is_Set in H. cbn [py_repr]. rewrite H. cbn [o_cls instance_repr].
  unfold Set_repr. do 2 (erewrite getattr_field; [|exact H|reflexivity]).
  cbn [rbind]. format_run. unfold Set_repr_text. f_equal; norm_text; reflexivity.
Qed.

(** X20: for a Set with an integer size and a string as name, [str] gives
    [OP2 Set: <name> with size <size>] and [repr] gives
    [Set(<size>, '<name>')], the size in decimal. *)
Theorem Set_renderings (σ : heap) (l : loc) (name : string) (size : Z) :
  is_Set σ l (VInt size) (VStr name) →
  str σ (VRef l) = Ok (Set_text name size)
  ∧ repr σ (VRef l) = Ok (Set_repr_text name size).
Proof.
  intros H. unfold str, repr.
  change recursion_limit with (S (S (S 997))).
  split; [now apply py_str_Set|now apply py_repr_Set].
Qed.

Lemma Set_renderings_witness :
  str carriers_heap (VRef 4) = Ok "OP2 Set: elems with size 10"
  ∧ repr carriers_heap (VRef 4) = Ok "Set(10, 'elems')".
Proof.
  apply (Set_renderings carriers_heap 4%nat "elems" 10). reflexivity.
Defined.

Lemma py_str_VStr n σ s : py_str (S n) σ (VStr s) = Ok s.
Proof. reflexivity. Qed.

Lemma py_str_VInt n σ z : py_str (S (S n)) σ (VInt z) = Ok (pretty z).
Proof. reflexivity. Qed.

Lemma py_str_ref n σ l o :
  σ !! l = Some o →
  py_str (S n) σ (VRef l)
  = instance_str (py_str n) (py_repr n) σ (o_cls o) (VRef l).
Proof. intros H. cbn [py_str]. now rewrite H. Qed.

Lemma py_str_Map n σ m s1 s2 values index name name1 name2 dim n1 n2 :
  is_Map σ m (VRef s1) (VRef s2) (VInt dim) values (VStr name) index →
  is_Set σ s1 (VInt n1) (VStr name1) →
  is_Set σ s2 (VInt n2) (VStr name2) →
  (index = VNone ∨ index = VInt 0 →
   py_str (S (S (S (S n)))) σ (VRef m)
   = Ok (Map_text name (Set_text name1 n1) (Set_text name2 n2) dim))
  ∧ (∀ i, index = VInt i → i ≠ 0 →
       py_str (S (S (S (S n)))) σ (VRef m)
       = Ok (Map_text name (Set_text name1 n1) (Set_text name2 n2) dim
             +:+ " and component " +:+ pretty i)).
Proof.
  intros Hm H1 H2. unfold is_Map in Hm.
  rewrite (py_str_ref _ _ _ _ Hm).
  pose proof (py_str_Set n σ s1 name1 n1 H1) as E1.
  pose proof (py_str_Set n σ s2 name2 n2 H2) as E2.
  pose proof (py_str_VStr (S (S n)) σ) as Es.
  pose proof (py_str_VInt (S n) σ) as Ei.
  remember (py_str (S (S (S n)))) as f eqn:Hf in *.
  remember (py_repr (S (S (S n)))) as g eqn:Hg in *.
  clear Hf Hg.
  cbn [o_cls instance_str]. unfold Map_str.
  do 5 (erewrite getattr_field; [|exact Hm|reflexivity]).
  cbn [rbind].
  split.
  - intros Hi.
    assert (truthy index = false) as ->
      by (destruct Hi as [-> | ->]; reflexivity).
    format_run. rewrite !Es, E1, E2, Ei. cbn [rbind].
    unfold Map_text. f_equal; norm_text; reflexivity.
  - intros i -> Hi.
    assert (truthy (VInt i) = true) as ->.
    { cbn [truthy]. now destruct (Z.eqb_spec i 0). }
    cbn [rbind]. format_run. rewrite !Ei. cbn [rbind].
    rewrite !Es, E1, E2. cbn [rbind].
    unfold Map_text. f_equal; norm_text; reflexivity.
Qed.

(** X21: for a Map between two such Sets, with an integer dimension and a
    string as name, [str] gives the name, the renderings of the two Sets and
    the dimension; when the Map is indexed at an integer other than 0 the
    text goes on with [ and component <index>], and when it is not indexed,
    or indexed at 0, it stops there. *)
Theorem Map_rendering (σ : heap) (m s1 s2 : loc) (values index : val)
    (name name1 name2 : string) (dim n1 n2 : Z) :
  is_Map σ m (VRef s1) (VRef s2) (VInt dim) values (VStr name) index →
  is_Set σ s1 (VInt n1) (VStr name1) →
  is_Set σ s2 (VInt n2) (VStr name2) →
  (index = VNone ∨ index = VInt 0 →
   str σ (VRef m)
   = Ok (Map_text name (Set_text name1 n1) (Set_text name2 n2) dim))
  ∧ (∀ i, index = VInt i → i ≠ 0 →
       str σ (VRef m)
       = Ok (Map_text name (Set_text name1 n1) (Set_text name2 n2) dim
             +:+ " and component " +:+ pretty i)).
Proof.
  intros Hm H1 H2. unfold str.
  change recursion_limit with (S (S (S (S 996)))).
  apply (py_str_Map 996 σ m s1 s2 values index); assumption.
Qed.

Lemma Map_rendering_witness :
  str carriers_heap (VRef 10)
  = Ok "OP2 Map: m3 from (OP2 Set: elems with size 10) to (OP2 Set: elems with size 10) with dim 3"
  ∧ str carriers_heap (VRef 11)
    = Ok "OP2 Map: m3 from (OP2 Set: elems with size 10) to (OP2 Set: elems with size 10) with dim 3 and component 2".
Proof.
  split.
  - destruct (Map_rendering carriers_heap 10%nat 4%nat 4%nat VNone VNone
                "m3" "elems" "elems" 3 10 10) as [H _];
      [reflexivity..|].
    apply H. left. reflexivity.
  - destruct (Map_rendering carriers_heap 11%nat 4%nat 4%nat VNone (VInt 2)
                "m3" "elems" "elems" 3 10 10) as [_ H];
      [reflexivity..|].
    apply (H 2); [reflexivity|lia].
Defined.

Lemma py_str_Global n σ g name value access :
  is_Global σ g (VInt value) (VStr name) access →
  (access = VNone →
   py_str (S (S (S n))) σ (VRef g) = Ok (Global_text name value))
  ∧ (∀ al mode, access = VRef al →
       σ !! al = Some (Obj CAccess (Access_fields (VStr mode))) →
       py_str (S (S (S n))) σ (VRef g)
       = Ok (Global_text name value +:+ " in mode OP2 Access: " +:+ mode)).
Proof.
  intros Hg. unfold is_Global in Hg.
  rewrite (py_str_ref _ _ _ _ Hg).
  pose proof (py_str_VStr (S n) σ) as Es.
  pose proof (py_str_VInt n σ) as Ei.
  pose proof (py_str_Access n σ) as Ea.
  remember (py_str (S (S n))) as f eqn:Hf in *.
  remember (py_repr (S (S n))) as r eqn:Hr in *.
  clear Hf Hr.
  cbn [o_cls instance_str]. unfold Global_str.
  do 3 (erewrite getattr_field; [|exact Hg|reflexivity]).
  cbn [rbind]. split.
  - intros ->. cbn [truthy]. format_run. rewrite !Es, Ei. cbn [rbind].
    unfold Global_text. (f_equal; norm_text; reflexivity).
  - intros al mode -> Hal. cbn [truthy]. format_run.
    rewrite (Ea al mode Hal). cbn [rbind].
    rewrite !Es, Ei. cbn [rbind].
    unfold Global_text. (f_equal; norm_text; reflexivity).
Qed.

(** X22: for a Global with an integer value and a string as name, [str]
    gives the name and the value; when the Global is bound to an Access
    object the text goes on with [ in mode ] and the rendering of that
    Access. *)
Theorem Global_rendering (σ : heap) (g : loc) (name : string) (value : Z)
    (access : val) :
  is_Global σ g (VInt value) (VStr name) access →
  (access = VNone → str σ (VRef g) = Ok (Global_text name value))
  ∧ (∀ al mode, access = VRef al →
       σ !! al = Some (Obj CAccess (Access_fields (VStr mode))) →
       str σ (VRef g)
       = Ok (Global_text name value +:+ " in mode OP2 Access: " +:+ mode)).
Proof.
  intros Hg. unfold str. change recursion_limit with (S (S (S 997))).
  now apply py_str_Global.
Qed.

Lemma Global_rendering_witness :
  str carriers_heap (VRef 9) = Ok "OP2 Global Argument: g with value 0"
  ∧ str (carriers_heap ++ [Obj CGlobal (Global_fields (VInt 0) (VStr "g") INC)])
      (VRef 12)
    = Ok "OP2 Global Argument: g with value 0 in mode OP2 Access: INC".
Proof.
  split.
  - destruct (Global_rendering carriers_heap 9%nat "g" 0 VNone) as [H _];
      [reflexivity|].
    now apply H.
  - destruct (Global_rendering
                (carriers_heap
                 ++ [Obj CGlobal (Global_fields (VInt 0) (VStr "g") INC)])
                12%nat "g" 0 INC) as [_ H]; [reflexivity|].
    apply (H 3%nat "INC"); reflexivity.
Defined.

(** X23: a Mat whose maps are an empty sequence renders, whatever its
    access, exactly as the unbound Mat with the same sets, dimension,
    datatype and name: [__str__] tests the truth of the maps. *)
Theorem Mat_without_maps_renders_unbound (σ : heap) (m m' : loc)
    (sets dim datatype name maps a : val) :
  σ !! m = Some (Obj CMat (Mat_fields sets dim datatype name maps a)) →
  py_iter maps = Some [] →
  is_Mat σ m' sets dim datatype name →
  str σ (VRef m) = str σ (VRef m').
Proof.
  intros Hm He Hm'. unfold is_Mat in Hm'. unfold str.
  change recursion_limit with (S 999).
  rewrite (py_str_ref _ _ _ _ Hm), (py_str_ref _ _ _ _ Hm').
  cbn [o_cls instance_str]. unfold Mat_str, attr_and.
  assert (truthy maps = false) as Ht.
  { destruct maps; try discriminate He.
    - injection He as He. destruct s; [reflexivity|discriminate He].
    - now injection He as ->.
    - now injection He as ->. }
  repeat (erewrite (getattr_field _ m); [|exact Hm|reflexivity]).
  repeat (erewrite (getattr_field _ m'); [|exact Hm'|reflexivity]).
  cbn [rbind truthy]. now rewrite Ht.
Qed.

Lemma Mat_without_maps_renders_unbound_witness :
  str (carriers_heap
       ++ [Obj CMat (Mat_fields (VTuple [VRef 4; VRef 4]) (VInt 1)
                       (VStr "double") (VStr "mat") (VTuple []) WRITE)])
    (VRef 12)
  = str (carriers_heap
         ++ [Obj CMat (Mat_fields (VTuple [VRef 4; VRef 4]) (VInt 1)
                         (VStr "double") (VStr "mat") (VTuple []) WRITE)])
      (VRef 8).
Proof.
  apply (Mat_without_maps_renders_unbound _ 12%nat 8%nat
           (VTuple [VRef 4; VRef 4]) (VInt 1) (VStr "double") (VStr "mat")
           (VTuple []) WRITE); reflexivity.
Defined.

(** *** What [Mat.__call__] compares *)

Lemma Mat_call_loop_ok σ pairs :
  Forall (set_matches σ) pairs → Mat_call_loop pairs σ = (Ok (), σ).
Proof.
  induction 1 as [|[map set] pairs (x & Hx & Heq) _ IH]; [reflexivity|].
  cbn [Mat_call_loop fst snd] in *. mrun. rewrite Hx. mrun.
  rewrite Heq. mrun. exact IH.
Qed.

(** X24: [Mat.__call__] compares only the pairs of [zip(maps, sets)]: with
    a canonical mode, when each map that is paired with one of the Mat's two
    Sets has that Set as its [_set], the call returns a copy of the Mat
    carrying [maps] as given.  Nothing is asked of a third or later item,
    and fewer than two maps are accepted. *)
Theorem Mat_call_compares_zipped_pairs (σ : heap) (mat : loc)
    (s1 s2 dim datatype name maps a : val) (ms : list val) :
  is_Mat σ mat (VTuple [s1; s2]) dim datatype name →
  canonical a →
  py_iter maps = Some ms →
  Forall (set_matches σ) (zip ms [s1; s2]) →
  Mat_call (VRef mat) maps a σ
  = (Ok (VRef (length σ)),
     σ ++ [Obj CMat (Mat_fields (VTuple [s1; s2]) dim datatype name maps a)]).
Proof.
  intros Hm Ha Hit Hall. unfold Mat_call.
  erewrite bind_ok;
    [|eapply assert_access_ok;
      [exact Hm|reflexivity..|now apply py_in_canonical]].
  mrun. erewrite getattr_field; [|exact Hm|reflexivity]. mrun.
  rewrite Hit. cbn [py_iter]. rewrite (Mat_call_loop_ok _ _ Hall). mrun.
  rewrite (copy_object _ _ _ Hm). mrun. rewrite !setattr_new. mrun.
  unfold Mat_fields.
  rewrite (insert_insert_ne _ "_access" "_maps") by done.
  rewrite insert_insert_eq.
  rewrite (insert_insert_ne _ "_maps" "_access") by done.
  now rewrite insert_insert_eq.
Qed.

Lemma Mat_call_compares_zipped_pairs_witness :
  Mat_call (VRef 8) (VList [VRef 7; VRef 7; VNone]) INC carriers_heap
  = (Ok (VRef 12),
     carriers_heap
     ++ [Obj CMat (Mat_fields (VTuple [VRef 4; VRef 4]) (VInt 1)
                     (VStr "double") (VStr "mat")
                     (VList [VRef 7; VRef 7; VNone]) INC)])
  ∧ Mat_call (VRef 8) (VTuple [VRef 7]) INC carriers_heap
    = (Ok (VRef 12),
       carriers_heap
       ++ [Obj CMat (Mat_fields (VTuple [VRef 4; VRef 4]) (VInt 1)
                       (VStr "double") (VStr "mat") (VTuple [VRef 7]) INC)]).
Proof.
  assert (set_matches carriers_heap (VRef 7, VRef 4)) as H7
    by (exists (VRef 4); split; reflexivity).
  split.
  - apply (Mat_call_compares_zipped_pairs carriers_heap 8%nat (VRef 4)
             (VRef 4) (VInt 1) (VStr "double") (VStr "mat")
             (VList [VRef 7; VRef 7; VNone]) INC [VRef 7; VRef 7; VNone]);
      [reflexivity|right; right; right; reflexivity|reflexivity|].
    repeat constructor; exact H7.
  - apply (Mat_call_compares_zipped_pairs carriers_heap 8%nat (VRef 4)
             (VRef 4) (VInt 1) (VStr "double") (VStr "mat")
             (VTuple [VRef 7]) INC [VRef 7]);
      [reflexivity|right; right; right; reflexivity|reflexivity|].
    repeat constructor; exact H7.
Defined.

(** *** Kernels *)

Lemma py_str_Kernel n σ l name code :
  σ !! l = Some (Obj CKernel (Kernel_fields (VStr name) (VStr code))) →
  py_str (S (S n)) σ (VRef l) = Ok (Kernel_text name)
  ∧ py_repr (S (S n)) σ (VRef l) = Ok (Kernel_repr_text name code).
Proof.
  intros H. split.
  - rewrite (py_str_ref _ _ _ _ H). cbn [o_cls instance_str].
    unfold Kernel_str. erewrite getattr_field; [|exact H|reflexivity].
    cbn [rbind]. unfold format1. format_run. cbn [py_str].
    unfold Kernel_text. f_equal; norm_text; reflexivity.
  - cbn [py_repr]. rewrite H. cbn [o_cls instance_repr].
    unfold Kernel_repr.
    do 2 (erewrite getattr_field; [|exact H|reflexivity]).
    cbn [rbind]. unfold dquote. format_run. cbn [py_str].
    unfold Kernel_repr_text, dquote. f_equal; norm_text; reflexivity.
Qed.

(** X25: for strings [name] and [code], [Kernel(name, code)] is
    constructed, its [str] is [OP2 Kernel: <name>] and its [repr] is the
    text of the constructor call, the name between double quotes and the
    code between triple double quotes. *)
Theorem Kernel_renderings (σ : heap) (name code : string) :
  ∃ k σ',
    new_Kernel (VStr name) (VStr code) σ = (Ok k, σ')
    ∧ str σ' k = Ok (Kernel_text name)
    ∧ repr σ' k = Ok (Kernel_repr_text name code).
Proof.
  exists (VRef (length σ)),
    (σ ++ [Obj CKernel (Kernel_fields (VStr name) (VStr code))]).
  split.
  - unfold new_Kernel, Kernel_init. mrun. rewrite !setattr_new. now mrun.
  - unfold str, repr. change recursion_limit with (S (S 998)).
    apply py_str_Kernel, lookup_new.
Qed.

(** *** Iteration spaces and unbound Dats *)

Lemma rmapM_repr_ints n σ (l : list Z) :
  rmapM (py_repr (S n) σ) (VInt <$> l) = Ok (pretty <$> l).
Proof.
  induction l as [|z l IH]; [reflexivity|].
  cbn [fmap list_fmap rmapM] in *.
  change (py_repr (S n) σ (VInt z)) with (@Ok string (pretty z)).
  cbn [rbind]. now rewrite IH.
Qed.

Lemma py_str_ints n σ (l : list Z) :
  py_str (S (S (S n))) σ (VTuple (VInt <$> l))
  = Ok (tuple_text (pretty <$> l)).
Proof.
  change (py_str (S (S (S n))) σ (VTuple (VInt <$> l)))
    with (items <~ rmapM (py_repr (S n) σ) (VInt <$> l) ;;
          Ok (tuple_text items)).
  now rewrite rmapM_repr_ints.
Qed.

Lemma py_str_IterationSpace n σ l s name size (dims : list Z) :
  σ !! l = Some (Obj CIterationSpace
                   (IterationSpace_fields (VRef s) (VTuple (VInt <$> dims)))) →
  is_Set σ s (VInt size) (VStr name) →
  py_str (S (S (S (S n)))) σ (VRef l)
  = Ok (IterationSpace_text (Set_text name size)
          (tuple_text (pretty <$> dims))).
Proof.
  intros H Hs. rewrite (py_str_ref _ _ _ _ H).
  pose proof (py_str_Set n σ s name size Hs) as E1.
  pose proof (py_str_ints n σ dims) as E2.
  remember (py_str (S (S (S n)))) as f eqn:Hf in *.
  remember (py_repr (S (S (S n)))) as r eqn:Hr in *.
  clear Hf Hr.
  cbn [o_cls instance_str]. unfold IterationSpace_str.
  do 2 (erewrite getattr_field; [|exact H|reflexivity]).
  cbn [rbind]. format_run. rewrite E1, E2. cbn [rbind].
  unfold IterationSpace_text. f_equal; norm_text; reflexivity.
Qed.

(** X26: for a Set with an integer size and a string as name and a tuple
    of integers [dims], [IterationSpace(set, dims)] is constructed and its
    [str] is [OP2 Iteration Space: ] followed by the rendering of the Set,
    [ and extra dimensions ] and the tuple as Python prints it. *)
Theorem IterationSpace_rendering (σ : heap) (s : loc) (name : string)
    (size : Z) (dims : list Z) :
  is_Set σ s (VInt size) (VStr name) →
  ∃ it σ',
    new_IterationSpace (VRef s) (VTuple (VInt <$> dims)) σ = (Ok it, σ')
    ∧ str σ' it = Ok (IterationSpace_text (Set_text name size)
                        (tuple_text (pretty <$> dims))).
Proof.
  intros Hs.
  exists (VRef (length σ)),
    (σ ++ [Obj CIterationSpace
             (IterationSpace_fields (VRef s) (VTuple (VInt <$> dims)))]).
  split.
  - apply new_IterationSpace_iff. repeat split.
    + unfold is_Set in Hs. cbn [isinstance]. now rewrite Hs.
    + change (items_of (coerce (VTuple (VInt <$> dims)) None))
        with (VInt <$> dims).
      induction dims as [|z dims IH]; [reflexivity|exact IH].
  - unfold str. change recursion_limit with (S (S (S (S 996)))).
    apply (py_str_IterationSpace 996 _ _ s name size dims);
      [apply lookup_new|now apply lookup_app_l_Some].
Qed.

Lemma IterationSpace_rendering_witness :
  ∃ it σ',
    new_IterationSpace (VRef 4) (VTuple [VInt 2; VInt 3]) carriers_heap
    = (Ok it, σ')
    ∧ str σ' it
      = Ok "OP2 Iteration Space: OP2 Set: elems with size 10 and extra dimensions (2, 3)".
Proof.
  apply (IterationSpace_rendering carriers_heap 4%nat "elems" 10 [2; 3]).
  reflexivity.
Defined.

Lemma py_str_Dat n σ d s name sname size dim datatype data :
  is_Dat σ d (VRef s) (VInt dim) (VStr datatype) data (VStr name) →
  is_Set σ s (VInt size) (VStr sname) →
  py_str (S (S (S (S n)))) σ (VRef d)
  = Ok (Dat_text name (Set_text sname size) dim datatype).
Proof.
  intros H Hs. unfold is_Dat in H. rewrite (py_str_ref _ _ _ _ H).
  pose proof (py_str_Set n σ s sname size Hs) as E1.
  pose proof (py_str_VStr (S (S n)) σ) as Es.
  pose proof (py_str_VInt (S n) σ) as Ei.
  remember (py_str (S (S (S n)))) as f eqn:Hf in *.
  remember (py_repr (S (S (S n)))) as r eqn:Hr in *.
  clear Hf Hr.
  cbn [o_cls instance_str]. unfold Dat_str, attr_and.
  repeat (erewrite (getattr_field _ d); [|exact H|reflexivity]).
  cbn [rbind truthy]. format_run. rewrite !Es, E1, Ei. cbn [rbind].
  unfold Dat_text. f_equal; norm_text; reflexivity.
Qed.

(** X27: for an unbound Dat on such a Set, with an integer dimension and
    strings as datatype and name, [str] gives the name, the rendering of the
    Set, the dimension and the datatype, and nothing about a map or a
    mode. *)
Theorem unbound_Dat_rendering (σ : heap) (d s : loc)
    (name sname datatype : string) (size dim : Z) (data : val) :
  is_Dat σ d (VRef s) (VInt dim) (VStr datatype) data (VStr name) →
  is_Set σ s (VInt size) (VStr sname) →
  str σ (VRef d) = Ok (Dat_text name (Set_text sname size) dim datatype).
Proof.
  intros H Hs. unfold str. change recursion_limit with (S (S (S (S 996)))).
  now apply (py_str_Dat 996 σ d s name sname size dim datatype data).
Qed.

Lemma unbound_Dat_rendering_witness :
  str carriers_heap (VRef 7)
  = Ok "OP2 Dat: d on (OP2 Set: elems with size 10) with dim 1 and datatype double".
Proof.
  apply (unbound_Dat_rendering carriers_heap 7%nat 4%nat "d" "elems" "double"
           10 1 VNone); reflexivity.
Defined.
